(** * Customer product lists hook: the event queue and the list store

    A shallow embedding of
    [packages/pwa/app/commerce-api/hooks/useCustomerProductLists.js].

    The hook is asynchronous JavaScript running on a single thread; every
    [await] is modelled as sequencing in a state-and-exception monad.  The
    commerce API client is an arbitrary deterministic server ([serve]) that
    answers a request with a resolved value or a rejection.  The helper
    [isError] and the constant [customerProductListTypes.WISHLIST] are
    imported by the hook from other modules and are taken as parameters.

    The event queue is a module-level array, and the hook's effect runs
    [processEventQueue] again whenever [customerProductLists] changes.  So
    once the snapshot has been written, another drain may be under way on
    the same queue, and whenever the run that is modelled waits for the
    API that other drain may shift actions off the queue.  The state
    records whether this can happen ([overlapping]); how many actions are
    taken during a wait is a parameter ([taken]), and the loop re-reads the
    queue every time round.

    Conventions of the model:
    - quantities are integers ([Z]);
    - a product list need not carry a [customerProductListItems] array;
      reading [find] or [filter] off a missing one is a [TypeError];
    - no action is enqueued while a drain is under way;
    - the success and error callbacks of a queued event are opaque
      observers: invoking one is recorded as an effect and returns normally;
    - [customerProductLists] (the value the render closed over) is an
      explicit argument of every method that reads it, whereas
      [setCustomerProductLists] writes the [context] field of the state. *)

From Stdlib Require Import String List ZArith Bool Lia.
Import ListNotations.
Local Open Scope string_scope.
Local Open Scope list_scope.

(** ** Data model *)

(** Fields of a JavaScript object the hook never inspects. *)
Definition Fields := list (string * string).

Record ProductListItem := mkItem {
  pli_id : string;
  pli_productId : string;
  pli_quantity : Z;
  pli_rest : Fields
}.

Record ProductList := mkList {
  pl_id : string;
  pl_type : string;
  customerProductListItems : option (list ProductListItem);
  pl_rest : Fields
}.

(** An object as returned by the API or held in the context: an optional
    [data] array of product lists next to other fields. *)
Record JsObject := mkObj {
  data : option (list ProductList);
  rest : Fields
}.

(** A value that may be [undefined]. *)
Definition Value := option JsObject.

Definition Callback := string.

Record EventItem := mkEventItem {
  ei_id : string;
  ei_quantity : Z
}.

Record Event := mkEvent {
  action : string;
  item : EventItem;
  listId : option string;
  onSuccess : option Callback;
  onError : option Callback
}.

Module eventActions.
Definition ADD := "add".
Definition REMOVE := "remove".
End eventActions.

Record RequestBody := mkBody {
  rb_productId : string;
  rb_priority : Z;
  rb_quantity : Z;
  rb_public : bool;
  rb_type : string
}.

(** The calls the hook makes on [api.shopperCustomers], with their
    [body] and [parameters]. *)
Inductive Request :=
| GetCustomerProductLists (customerId : string)
| CreateCustomerProductList (type : string) (customerId : string)
| CreateCustomerProductListItem (body : RequestBody) (customerId listId : string)
| UpdateCustomerProductListItem (body : RequestBody) (customerId listId itemId : string)
| DeleteCustomerProductListItem (itemId : string) (listId : option string)
    (customerId : string).

Inductive ApiResult :=
| Resolved (v : Value)
| Rejected.

Inductive Exn :=
| ErrorOf (response : Value)   (* throw new Error(response) *)
| TypeError                    (* property access or call on undefined *)
| Rejection.                   (* the API promise rejected *)

(** What an observer of the hook sees, in chronological order. *)
Inductive Effect :=
| Call (r : Request) (res : ApiResult)
| Log (body : RequestBody)
| OnSuccess (cb : Callback) (arg : option Z)
| OnError (cb : Callback).

Inductive Outcome (A : Type) :=
| Returned (a : A)
| Thrown (e : Exn).
Arguments Returned {A} a.
Arguments Thrown {A} e.

Inductive LoopCtl := Continue | ReturnNow.

Definition is_refetch (e : Effect) : bool :=
  match e with Call (GetCustomerProductLists _) _ => true | _ => false end.

Definition requests (t : list Effect) : list Request :=
  flat_map (fun e => match e with Call r _ => [r] | _ => [] end) t.

(** [list.id === listId], where the right-hand side may be undefined. *)
Definition id_is (i : string) (listId : option string) : bool :=
  match listId with
  | Some l => String.eqb i l
  | None => false
  end.

(** ** State and monad *)

Section Monad.

Context {World : Type}.

(** The module-level [eventQueue], the two pieces of React state the hook
    writes, the state of the server behind the API client, and whether
    another [processEventQueue] may be under way on the same queue: that is
    so from the first write of the snapshot on, since the effect runs the
    drain again whenever [customerProductLists] changes. *)
Record State := mkState {
  eventQueue : list Event;
  context : Value;
  isLoading : bool;
  world : World;
  overlapping : bool
}.

(** The result of running a piece of the hook: how it ended, the state it
    left, and the effects it caused, oldest first. *)
Record Run (A : Type) := mkRun {
  outcome : Outcome A;
  final : State;
  effects : list Effect
}.
Arguments mkRun {A} _ _ _.
Arguments outcome {A} _.
Arguments final {A} _.
Arguments effects {A} _.

Definition M (A : Type) := State -> Run A.

(** [after t r] is the run [r] preceded by the effects [t]. *)
Definition after {A} (t : list Effect) (r : Run A) : Run A :=
  match r with
  | mkRun out st t' => mkRun out st (t ++ t')
  end.

Definition ret {A} (a : A) : M A := fun st => mkRun (Returned a) st [].
Definition throw {A} (e : Exn) : M A := fun st => mkRun (Thrown e) st [].
Definition bind {A B} (m : M A) (k : A -> M B) : M B :=
  fun st =>
    match m st with
    | mkRun (Returned a) st' t => after t (k a st')
    | mkRun (Thrown e) st' t => mkRun (Thrown e) st' t
    end.
Definition try_catch {A} (m : M A) (handler : Exn -> M A) : M A :=
  fun st =>
    match m st with
    | mkRun (Returned a) st' t => mkRun (Returned a) st' t
    | mkRun (Thrown e) st' t => after t (handler e st')
    end.

Definition emit (e : Effect) : M unit := fun st =>
  mkRun (Returned tt) st [e].

Definition setIsLoading (b : bool) : M unit := fun st =>
  mkRun (Returned tt)
        (mkState (eventQueue st) (context st) b (world st) (overlapping st))
        [].

(** Writing the snapshot makes the hook render again and its effect run:
    from here on another drain may be under way. *)
Definition setCustomerProductLists (v : Value) : M unit := fun st =>
  mkRun (Returned tt)
        (mkState (eventQueue st) v (isLoading st) (world st) true) [].

Definition setEventQueue (q : list Event) : M unit := fun st =>
  mkRun (Returned tt)
        (mkState q (context st) (isLoading st) (world st) (overlapping st))
        [].

(** [cb?.(arg)] *)
Definition optional_call (cb : option Callback) (e : Callback -> Effect)
  : M unit :=
  match cb with
  | Some f => emit (e f)
  | None => ret tt
  end.

End Monad.

Arguments State : clear implicits.
Arguments Run : clear implicits.
Arguments M : clear implicits.
Arguments mkState {World} _ _ _ _ _.
Arguments mkRun {World A} _ _ _.
Arguments outcome {World A} _.
Arguments final {World A} _.
Arguments effects {World A} _.

Declare Scope hook_scope.
Delimit Scope hook_scope with hook.
Notation "x <- m ;; k" := (bind m (fun x => k))
  (at level 61, m at next level, right associativity) : hook_scope.
Notation "m ;; k" := (bind m (fun _ => k))
  (at level 61, right associativity) : hook_scope.

(** ** Sample data

    A customer with one wish list holding product [p1] three times, a
    server that answers every request with that list, one that answers
    every request with an error-shaped object, and one that plays a script
    of answers; no other drain under way ([idle]), or one that takes an
    action during every wait ([eager]). *)
Module Sample.

Definition WISHLIST := "wish_list".
Definition customerId := "c1".

Definition i1 : ProductListItem := mkItem "i1" "p1" 3 [].
Definition l1 : ProductList := mkList "l1" WISHLIST (Some [i1]) [].
Definition l2 : ProductList :=
  mkList "l2" "shopping_list" (Some [mkItem "i1" "p9" 1 []]) [].
Definition lists : JsObject := mkObj (Some [l1; l2]) [("total", "2")].
Definition fault : JsObject :=
  mkObj None [("title", "Bad Request"); ("type", "error"); ("detail", "no")].

(** An object counts as an error when it carries a [title] field. *)
Definition isError (v : Value) : bool :=
  match v with
  | Some o => existsb (fun kv => fst kv =? "title") (rest o)
  | None => false
  end.

Definition steady (w : unit) (r : Request) : ApiResult * unit :=
  (Resolved (Some lists), w).

Definition failing (w : unit) (r : Request) : ApiResult * unit :=
  (Resolved (Some fault), w).

Definition scripted (w : list ApiResult) (r : Request)
  : ApiResult * list ApiResult :=
  match w with
  | res :: w' => (res, w')
  | [] => (Resolved None, [])
  end.

Definition addP1 : Event :=
  mkEvent eventActions.ADD (mkEventItem "p1" 2) None (Some "added")
          (Some "failed").
Definition addP2 : Event :=
  mkEvent eventActions.ADD (mkEventItem "p2" 2) None (Some "added")
          (Some "failed").
Definition addP1_silent : Event :=
  mkEvent eventActions.ADD (mkEventItem "p1" 2) None None (Some "failed").
Definition removeI1 : Event :=
  mkEvent eventActions.REMOVE (mkEventItem "i1" 0) (Some "l1")
          (Some "removed") (Some "failed").

Definition start {World} (q : list Event) (w : World) : State World :=
  mkState q (Some lists) false w false.

(** A wish list as the lists response has it when it holds nothing: the
    [customerProductListItems] key is missing. *)
Definition bare : ProductList := mkList "l1" WISHLIST None [].
Definition bare_lists : JsObject := mkObj (Some [bare]) [("total", "1")].

Definition idle (w : unit) : nat := 0.
Definition eager (w : unit) : nat := 1.

Definition removeI2 : Event :=
  mkEvent eventActions.REMOVE (mkEventItem "i2" 0) (Some "l1")
          (Some "removed") (Some "failed").
Definition removeI3 : Event :=
  mkEvent eventActions.REMOVE (mkEventItem "i3" 0) (Some "l1")
          (Some "removed") (Some "failed").

Definition update5 : Request :=
  UpdateCustomerProductListItem (mkBody "p1" 1 5 false "product")
                                customerId "l1" "i1".

Definition createP2 : Request :=
  CreateCustomerProductListItem (mkBody "p2" 1 2 false "product")
                                customerId "l1".

Definition deleteI1 : Request :=
  DeleteCustomerProductListItem "i1" (Some "l1") customerId.

Definition fetch : Request := GetCustomerProductLists customerId.

Definition deleteI2 : Request :=
  DeleteCustomerProductListItem "i2" (Some "l1") customerId.

Definition deleteI3 : Request :=
  DeleteCustomerProductListItem "i3" (Some "l1") customerId.

End Sample.

(** ** The product-detail cache

    [getProductsInList] keeps, on a product list, an object
    [_productItemsDetail] that maps a product id to the product fetched
    for it.  A list with that cache, the snapshot of such lists and the
    answer of [api.shopperProducts.getProducts] are modelled here; the
    method reads the snapshot the render closed over and hands the new one
    to [setCustomerProductLists]. *)
Module ProductDetails.

Record Product := mkProduct {
  product_id : string;
  product_rest : Fields
}.

(** A JavaScript object used as a map from product id to product: its
    properties in insertion order, each key once. *)
Definition Details := list (string * Product).

(** [object[key]] *)
Fixpoint get (key : string) (object : Details) : option Product :=
  match object with
  | [] => None
  | (k, v) :: more => if k =? key then Some v else get key more
  end.

(** [object[key] = value]: an existing property keeps its place, a new
    one goes last. *)
Fixpoint set (key : string) (value : Product) (object : Details)
  : Details :=
  match object with
  | [] => [(key, value)]
  | (k, v) :: more =>
      if k =? key then (k, value) :: more
      else (k, v) :: set key value more
  end.

(** [{...a, ...b}] *)
Definition spread (a b : Details) : Details :=
  fold_left (fun result kv => set (fst kv) (snd kv) result) b a.

Record DetailedList := mkDetailed {
  summary : ProductList;
  _productItemsDetail : option Details
}.

Record Snapshot := mkSnapshot {
  lists : option (list DetailedList);
  other : Fields
}.

(** The object [getProducts] resolves to, with its [data] array. *)
Record ProductsResponse := mkProducts {
  products : option (list Product);
  response_rest : Fields
}.

Inductive ProductsResult :=
| Found (response : option ProductsResponse)
| Failed.

Inductive Ending :=
| Done
| Raised (response : option ProductsResponse)  (* throw new Error(response) *)
| Mistyped                                     (* a TypeError *)
| Refused.                                     (* the API promise rejected *)

(** A run of [getProductsInList]: how it ended, the [ids] it asked the
    API for, and the snapshot it handed to [setCustomerProductLists], if it
    got that far. *)
Record Run := mkRun {
  ended : Ending;
  asked : list string;
  installed : option Snapshot
}.

(** [response.data.reduce((result, item) => {result[item.id] = item;
    return result}, {})] *)
Definition itemDetail (data : list Product) : Details :=
  fold_left (fun result item => set (product_id item) item result) data [].

(** The function mapped over [customerProductLists.data]. *)
Definition add_details (listId : option string) (details : Details)
    (list : DetailedList) : DetailedList :=
  if id_is (pl_id (summary list)) listId then
    mkDetailed (summary list)
      (Some (spread match _productItemsDetail list with
                    | Some cached => cached
                    | None => []
                    end
                    details))
  else list.

Section Method.

Variable getProducts : string -> ProductsResult.
Variable isError : option ProductsResponse -> bool.

Definition getProductsInList (customerProductLists : option Snapshot)
    (ids : option string) (listId : option string) : Run :=
  match ids with
  | None => mkRun Done [] None
  | Some EmptyString => mkRun Done [] None
  | Some ids =>
      match getProducts ids with
      | Failed => mkRun Refused [ids] None
      | Found response =>
          if isError response then mkRun (Raised response) [ids] None
          else
            match response with
            | None => mkRun Mistyped [ids] None
            | Some body =>
                match products body with
                | None => mkRun Mistyped [ids] None
                | Some data =>
                    match customerProductLists with
                    | None => mkRun Mistyped [ids] None
                    | Some snapshot =>
                        match lists snapshot with
                        | None => mkRun Mistyped [ids] None
                        | Some all =>
                            mkRun Done [ids]
                              (Some
                                 (mkSnapshot
                                    (Some (map (add_details listId
                                                  (itemDetail data))
                                               all))
                                    (other snapshot)))
                        end
                    end
                end
            end
      end
  end.

End Method.

(** A product list with a cached detail, for the examples. *)
Definition shirt : Product := mkProduct "p1" [("name", "shirt")].
Definition shirt' : Product := mkProduct "p1" [("name", "shirt, new")].
Definition tie : Product := mkProduct "p2" [("name", "tie")].
Definition cached : Snapshot :=
  mkSnapshot
    (Some [mkDetailed (mkList "l1" "wish_list" None [])
                      (Some [("p1", shirt)]);
           mkDetailed (mkList "l2" "shopping_list" None []) None])
    [("total", "2")].
Definition answer (ids : string) : ProductsResult :=
  Found (Some (mkProducts (Some [tie; shirt']) [])).
Definition never_error (response : option ProductsResponse) : bool := false.

End ProductDetails.

(** ** The methods of [self] *)

Section Hook.

Context {World : Type}.
Variable serve : World -> Request -> ApiResult * World.
Variable taken : World -> nat.
Variable isError : Value -> bool.
Variable WISHLIST : string.
Variable customerId : string.

Local Open Scope hook_scope.
Local Abbreviation M := (M World).
Local Abbreviation State := (State World).

(** The queue as a run finds it when the call it waited for has settled
    with the server in state [w]: if another drain may be under way, that
    drain has shifted [taken w] actions off the queue meanwhile. *)
Definition settled (st : State) (w : World) : list Event :=
  if overlapping st then skipn (taken w) (eventQueue st) else eventQueue st.

(** [await api.shopperCustomers.<method>(...)] *)
Definition api (r : Request) : M Value := fun st =>
  let (res, w) := serve (world st) r in
  let st' :=
    mkState (settled st w) (context st) (isLoading st) w (overlapping st) in
  match res with
  | Resolved v => mkRun (Returned v) st' [Call r res]
  | Rejected => mkRun (Thrown Rejection) st' [Call r res]
  end.

Definition loaded (customerProductLists : Value) : bool :=
  match customerProductLists with
  | Some {| data := Some (_ :: _) |} => true
  | _ => false
  end.

Definition getProductListPerType (customerProductLists : Value)
    (type : string) : M (option ProductList) :=
  match customerProductLists with
  | None => ret None
  | Some o =>
      match data o with
      | None => throw TypeError
      | Some lists => ret (find (fun list => pl_type list =? type) lists)
      end
  end.

Definition clearProductLists : M unit :=
  setCustomerProductLists (Some (mkObj None [])).

Definition getCustomerProductLists : M Value :=
  setIsLoading true ;;
  response <- api (GetCustomerProductLists customerId) ;;
  setIsLoading false ;;
  if isError response then throw (ErrorOf response)
  else
    setCustomerProductLists response ;;
    ret response.

Definition addActionToEventQueue (event : Event) : M unit := fun st =>
  setEventQueue (eventQueue st ++ [event]) st.

Definition createCustomerProductList (type : string) : M Value :=
  setIsLoading true ;;
  response <- api (CreateCustomerProductList type customerId) ;;
  setIsLoading true ;;
  if isError response then throw (ErrorOf response)
  else
    getCustomerProductLists ;;
    ret response.

Definition createCustomerProductListItem (item : RequestBody)
    (listId : string) : M Value :=
  setIsLoading true ;;
  emit (Log item) ;;
  response <- api (CreateCustomerProductListItem item customerId listId) ;;
  setIsLoading false ;;
  if isError response then throw (ErrorOf response)
  else
    getCustomerProductLists ;;
    ret response.

Definition updateCustomerProductListItem (item : RequestBody)
    (listId itemId : string) : M Value :=
  setIsLoading true ;;
  emit (Log item) ;;
  response <-
    api (UpdateCustomerProductListItem item customerId listId itemId) ;;
  setIsLoading false ;;
  if isError response then throw (ErrorOf response)
  else
    getCustomerProductLists ;;
    ret response.

Definition addItemToWishlist (productId : string) (quantity : Z)
    (wishlistId : string) : M Value :=
  let requestBody := mkBody productId 1 quantity false "product" in
  createCustomerProductListItem requestBody wishlistId.

Definition updateItemToWishlist (productId : string)
    (productListItem : ProductListItem) (quantity : Z)
    (wishlistId : string) : M Value :=
  let requestBody :=
    mkBody productId 1 (pli_quantity productListItem + quantity) false
           "product" in
  updateCustomerProductListItem requestBody wishlistId
                                (pli_id productListItem).

(** [response?.data?.length && response?.data?.some(list => list.type === type)] *)
Definition has_list_of_type (response : Value) (type : string) : bool :=
  match response with
  | Some {| data := Some lists |} =>
      negb (length lists =? 0)%nat
      && existsb (fun list => pl_type list =? type) lists
  | _ => false
  end.

Definition fetchOrCreateProductLists (type : string) : M unit :=
  setIsLoading true ;;
  response <- api (GetCustomerProductLists customerId) ;;
  setIsLoading false ;;
  if isError response then throw (ErrorOf response)
  else if has_list_of_type response type then
    setCustomerProductLists response
  else
    setIsLoading true ;;
    newProductList <- api (CreateCustomerProductList type customerId) ;;
    setIsLoading false ;;
    if isError newProductList then throw (ErrorOf newProductList)
    else
      getCustomerProductLists ;;
      ret tt.

(** The function [deleteCustomerProductListItem] maps over [data]: on the
    list whose id is [listId] it is
    [{...list, customerProductListItems:
       list.customerProductListItems.filter((x) => x.id !== item.id)}],
    which throws a [TypeError] ([None]) when that list has no
    [customerProductListItems]; any other list is returned as it is. *)
Definition remove_item (itemId : string) (listId : option string)
    (list : ProductList) : option ProductList :=
  if id_is (pl_id list) listId then
    match customerProductListItems list with
    | Some items =>
        Some (mkList (pl_id list) (pl_type list)
                (Some (filter (fun x => negb (pli_id x =? itemId)) items))
                (pl_rest list))
    | None => None
    end
  else Some list.

(** [array.map(f)] for an [f] that may throw: the first throw ends it. *)
Fixpoint map_or_throw {A B} (f : A -> option B) (l : list A)
  : option (list B) :=
  match l with
  | [] => Some []
  | x :: more =>
      match f x with
      | None => None
      | Some y =>
          match map_or_throw f more with
          | None => None
          | Some ys => Some (y :: ys)
          end
      end
  end.

Definition deleteCustomerProductListItem (customerProductLists : Value)
    (item : EventItem) (listId : option string) : M unit :=
  response <-
    api (DeleteCustomerProductListItem (ei_id item) listId customerId) ;;
  if isError response then throw (ErrorOf response)
  else
    match customerProductLists with
    | None => throw TypeError
    | Some o =>
        match data o with
        | None => throw TypeError
        | Some lists =>
            match map_or_throw (remove_item (ei_id item) listId) lists with
            | None => throw TypeError
            | Some updated =>
                let updatedProductLists := mkObj (Some updated) (rest o) in
                setCustomerProductLists (Some updatedProductLists)
            end
        end
    end.

(** ** The event queue *)

(** The body of the [switch] for one event already shifted off the queue.
    [ReturnNow] stands for the [return] statements of the ADD case, which
    leave [processEventQueue] altogether; [Continue] for reaching the end of
    the [switch]. *)
Definition processEvent (customerProductLists : Value) (event : Event)
  : M LoopCtl :=
  if action event =? eventActions.ADD then
    try_catch
      (wishlist <- getProductListPerType customerProductLists WISHLIST ;;
       match wishlist with
       | None => throw TypeError
       | Some wishlist =>
           match customerProductListItems wishlist with
           | None => throw TypeError
           | Some items =>
               let productListItem :=
                 find (fun i => pli_productId i =? ei_id (item event))
                      items in
               match productListItem with
               | Some productListItem =>
                   updateItemToWishlist (ei_id (item event)) productListItem
                     (ei_quantity (item event)) (pl_id wishlist) ;;
                   match onSuccess event with
                   | None => throw TypeError
                   | Some f =>
                       emit (OnSuccess f
                               (Some (ei_quantity (item event)))) ;;
                       ret ReturnNow
                   end
               | None =>
                   addItemToWishlist (ei_id (item event))
                     (ei_quantity (item event)) (pl_id wishlist) ;;
                   optional_call (onSuccess event)
                     (fun f =>
                        OnSuccess f (Some (ei_quantity (item event)))) ;;
                   ret ReturnNow
               end
           end
       end)
      (fun _ => optional_call (onError event) OnError ;; ret Continue)
  else if action event =? eventActions.REMOVE then
    try_catch
      (deleteCustomerProductListItem customerProductLists (item event)
         (listId event) ;;
       optional_call (onSuccess event) (fun f => OnSuccess f None) ;;
       ret Continue)
      (fun _ => optional_call (onError event) OnError ;; ret Continue)
  else ret Continue.

(** [while (eventQueue.length) { const event = eventQueue.shift(); ... }].
    Every turn re-reads the module-level queue, which by then may have lost
    actions to another drain.  The queue never grows while the loop runs,
    so its length when the loop starts bounds the number of turns: [turns]
    only makes the recursion structural, and [drain_turns] below shows that
    any number of turns from the length of the queue on gives the same
    run. *)
Fixpoint drain (turns : nat) (customerProductLists : Value) : M unit :=
  fun st =>
    match turns with
    | O => ret tt st
    | S turns' =>
        match eventQueue st with
        | [] => ret tt st
        | event :: remaining =>
            (setEventQueue remaining ;;
             ctl <- processEvent customerProductLists event ;;
             match ctl with
             | ReturnNow => ret tt
             | Continue => drain turns' customerProductLists
             end) st
        end
    end.

Definition processEventQueue (customerProductLists : Value) : M unit :=
  fun st => drain (length (eventQueue st)) customerProductLists st.

(** [eventQueue.length && customerProductLists?.data.length], as a truth
    value. *)
Definition effect_guard (customerProductLists : Value) : M bool := fun st =>
  match eventQueue st with
  | [] => ret false st
  | _ :: _ =>
      match customerProductLists with
      | None => ret false st
      | Some o =>
          match data o with
          | None => throw TypeError st
          | Some lists => ret (negb (length lists =? 0)%nat) st
          end
      end
  end.

(** The effect registered with [useEffect(..., [customerProductLists])]. *)
Definition useEffect (customerProductLists : Value) : M unit :=
  fires <- effect_guard customerProductLists ;;
  if fires then processEventQueue customerProductLists else ret tt.

(** ** Notions used to state the properties *)

(** A run raises on an error-shaped response, and asks nothing more of the
    server afterwards: the failing call is the last effect of the run. *)
Definition raises_on_error {A} (m : M A) : Prop :=
  forall st r v,
    In (Call r (Resolved v)) (effects (m st)) ->
    isError v = true ->
    outcome (m st) = Thrown (ErrorOf v)
    /\ exists before, effects (m st) = before ++ [Call r (Resolved v)].

(** The effect of [event.onError?.()]. *)
Definition error_report (event : Event) : list Effect :=
  match onError event with
  | Some f => [OnError f]
  | None => []
  end.

(** The request behind a queued event throws [e], leaving state [st1]
    after causing the effects [t]. *)
Inductive request_throws (cpl : Value) (event : Event) (st : State)
    (e : Exn) (st1 : State) (t : list Effect) : Prop :=
| update_throws o lists wishlist items existing :
    action event = eventActions.ADD ->
    cpl = Some o ->
    data o = Some lists ->
    find (fun list => pl_type list =? WISHLIST) lists = Some wishlist ->
    customerProductListItems wishlist = Some items ->
    find (fun i => pli_productId i =? ei_id (item event)) items
    = Some existing ->
    updateItemToWishlist (ei_id (item event)) existing
      (ei_quantity (item event)) (pl_id wishlist) st
    = mkRun (Thrown e) st1 t ->
    request_throws cpl event st e st1 t
| create_throws o lists wishlist items :
    action event = eventActions.ADD ->
    cpl = Some o ->
    data o = Some lists ->
    find (fun list => pl_type list =? WISHLIST) lists = Some wishlist ->
    customerProductListItems wishlist = Some items ->
    find (fun i => pli_productId i =? ei_id (item event)) items = None ->
    addItemToWishlist (ei_id (item event)) (ei_quantity (item event))
      (pl_id wishlist) st
    = mkRun (Thrown e) st1 t ->
    request_throws cpl event st e st1 t
| delete_throws :
    action event = eventActions.REMOVE ->
    deleteCustomerProductListItem cpl (item event) (listId event) st
    = mkRun (Thrown e) st1 t ->
    request_throws cpl event st e st1 t.

(** The state once the head of the queue has been shifted off. *)
Definition dequeued (remaining : list Event) (st : State) : State :=
  mkState remaining (context st) (isLoading st) (world st) (overlapping st).

(** The requests that change something on the server, as opposed to the
    fetch of the lists. *)
Definition is_mutation (r : Request) : bool :=
  match r with
  | GetCustomerProductLists _ => false
  | _ => true
  end.

(** The request a queued event leads to, read off the snapshot the drain
    closed over: an update or a create for an add, depending on whether the
    wish list holds the product, a delete for a remove, and none when no
    wish list with items is found or the action is of another kind. *)
Definition planned_request (cpl : Value) (event : Event) : list Request :=
  if action event =? eventActions.ADD then
    match cpl with
    | Some {| data := Some lists |} =>
        match find (fun list => pl_type list =? WISHLIST) lists with
        | Some wishlist =>
            match customerProductListItems wishlist with
            | Some items =>
                match find (fun i => pli_productId i =? ei_id (item event))
                           items with
                | Some existing =>
                    [UpdateCustomerProductListItem
                       (mkBody (ei_id (item event)) 1
                          (pli_quantity existing + ei_quantity (item event))
                          false "product")
                       customerId (pl_id wishlist) (pli_id existing)]
                | None =>
                    [CreateCustomerProductListItem
                       (mkBody (ei_id (item event)) 1
                          (ei_quantity (item event)) false "product")
                       customerId (pl_id wishlist)]
                end
            | None => []
            end
        | None => []
        end
    | _ => []
    end
  else if action event =? eventActions.REMOVE then
    [DeleteCustomerProductListItem (ei_id (item event)) (listId event)
                                   customerId]
  else [].

(** A piece of the hook under which the queue only loses actions from its
    head: those another drain took while this one waited. *)
Definition drops_only {A} (m : M A) : Prop :=
  forall st, exists k, eventQueue (final (m st)) = skipn k (eventQueue st).

(** [picked] holds some of the elements of a list, in the order the list
    has them. *)
Inductive in_order {A} : list A -> list A -> Prop :=
| in_order_nil l : in_order [] l
| in_order_take x picked l :
    in_order picked l -> in_order (x :: picked) (x :: l)
| in_order_skip x picked l :
    in_order picked l -> in_order picked (x :: l).

(** The delete request of a queued remove. *)
Definition delete_request (event : Event) : Request :=
  DeleteCustomerProductListItem (ei_id (item event)) (listId event)
                                customerId.

(** A piece of the hook that, when it throws, leaves the snapshot in the
    context as it found it. *)
Definition keeps_snapshot_on_throw {A} (m : M A) : Prop :=
  forall st e,
    outcome (m st) = Thrown e -> context (final (m st)) = context st.

(** A piece of the hook that has switched the loader off when it returns. *)
Definition clears_loader {A} (m : M A) : Prop :=
  forall st a,
    outcome (m st) = Returned a -> isLoading (final (m st)) = false.

(** ** Properties *)

Ltac unfold_monad :=
  unfold bind, try_catch, ret, throw, after, emit, optional_call,
    setIsLoading, setCustomerProductLists, setEventQueue, api in *.

(** *** Raising on an error-shaped response *)

Lemma raises_silent {A} (m : M A) :
  (forall st, effects (m st) = []) -> raises_on_error m.
Proof. intros Hm st r v Hin. rewrite Hm in Hin. contradiction. Qed.

Lemma raises_log (body : RequestBody) : raises_on_error (emit (Log body)).
Proof. intros st r v [Hin | []]. discriminate. Qed.

Lemma raises_bind {A B} (m : M A) (k : A -> M B) :
  raises_on_error m ->
  (forall a, raises_on_error (k a)) ->
  raises_on_error (bind m k).
Proof.
  intros Hm Hk st r v. specialize (Hm st r v). unfold bind.
  destruct (m st) as [[a|e] st1 t1]; cbn in *.
  - specialize (Hk a st1 r v).
    destruct (k a st1) as [out st2 t2]; cbn in *.
    intros Hin Hv. apply in_app_or in Hin. destruct Hin as [Hin | Hin].
    + destruct (Hm Hin Hv) as [Habs _]. discriminate.
    + destruct (Hk Hin Hv) as [Hout [before ->]].
      split; [assumption|]. exists (t1 ++ before). apply app_assoc.
  - intros Hin Hv. destruct (Hm Hin Hv) as [He Hlast].
    inversion He; subst. now split.
Qed.

(** The pattern every method follows: call the API, then test the
    response with [isError] before anything else is requested. *)
Lemma raises_api {A} (r : Request) (k : Value -> M A) :
  (forall v st, isError v = true ->
     outcome (k v st) = Thrown (ErrorOf v) /\ effects (k v st) = []) ->
  (forall v, isError v = false -> raises_on_error (k v)) ->
  raises_on_error (bind (api r) k).
Proof.
  intros Herr Hok st r' v. unfold bind, api.
  destruct (serve (world st) r) as [[v0|] w]; cbn.
  - destruct (isError v0) eqn:E0.
    + destruct (Herr v0 (mkState (settled st w) (context st)
                           (isLoading st) w (overlapping st)) E0)
        as [Hout Heff].
      destruct (k v0 _) as [out st2 t2]; cbn in *. subst out t2.
      intros [Hin | []] Hv. inversion Hin; subst.
      split; [reflexivity|]. now exists [].
    + specialize (Hok v0 E0 (mkState (settled st w) (context st)
                               (isLoading st) w (overlapping st)) r' v).
      destruct (k v0 _) as [out st2 t2]; cbn in *.
      intros [Hin | Hin] Hv.
      * inversion Hin; subst. congruence.
      * destruct (Hok Hin Hv) as [Hout [before ->]].
        split; [assumption|].
        now exists (Call r (Resolved v0) :: before).
  - intros [Hin | []] Hv. discriminate.
Qed.

(** Computes without opening the store methods the drain calls. *)
Ltac step :=
  cbn -[updateItemToWishlist addItemToWishlist deleteCustomerProductListItem
        updateCustomerProductListItem createCustomerProductListItem drain
        processEventQueue].

Ltac silent := apply raises_silent; intros; reflexivity.

Ltac raised_at_once E :=
  intros ? ? E; unfold_monad; cbn; rewrite E; cbn; now split.

Lemma getCustomerProductLists_raises : raises_on_error getCustomerProductLists.
Proof.
  unfold getCustomerProductLists.
  apply raises_bind; [silent | intros _].
  apply raises_api; [raised_at_once E | intros v E].
  apply raises_bind; [silent | intros _]. rewrite E. silent.
Qed.

Lemma createCustomerProductList_raises type :
  raises_on_error (createCustomerProductList type).
Proof.
  unfold createCustomerProductList.
  apply raises_bind; [silent | intros _].
  apply raises_api; [raised_at_once E | intros v E].
  apply raises_bind; [silent | intros _]. rewrite E.
  apply raises_bind; [apply getCustomerProductLists_raises | intros _].
  silent.
Qed.

Lemma createCustomerProductListItem_raises body lid :
  raises_on_error (createCustomerProductListItem body lid).
Proof.
  unfold createCustomerProductListItem.
  apply raises_bind; [silent | intros _].
  apply raises_bind; [apply raises_log | intros _].
  apply raises_api; [raised_at_once E | intros v E].
  apply raises_bind; [silent | intros _]. rewrite E.
  apply raises_bind; [apply getCustomerProductLists_raises | intros _].
  silent.
Qed.

Lemma updateCustomerProductListItem_raises body lid iid :
  raises_on_error (updateCustomerProductListItem body lid iid).
Proof.
  unfold updateCustomerProductListItem.
  apply raises_bind; [silent | intros _].
  apply raises_bind; [apply raises_log | intros _].
  apply raises_api; [raised_at_once E | intros v E].
  apply raises_bind; [silent | intros _]. rewrite E.
  apply raises_bind; [apply getCustomerProductLists_raises | intros _].
  silent.
Qed.

Lemma fetchOrCreateProductLists_raises type :
  raises_on_error (fetchOrCreateProductLists type).
Proof.
  unfold fetchOrCreateProductLists.
  apply raises_bind; [silent | intros _].
  apply raises_api; [raised_at_once E | intros v E].
  apply raises_bind; [silent | intros _]. rewrite E.
  destruct (has_list_of_type v type); [silent|].
  apply raises_bind; [silent | intros _].
  apply raises_api; [raised_at_once E1 | intros v1 E1].
  apply raises_bind; [silent | intros _]. rewrite E1.
  apply raises_bind; [apply getCustomerProductLists_raises | intros _].
  silent.
Qed.

Lemma deleteCustomerProductListItem_raises cpl it lid :
  raises_on_error (deleteCustomerProductListItem cpl it lid).
Proof.
  unfold deleteCustomerProductListItem.
  apply raises_api; [raised_at_once E | intros v E]. rewrite E.
  destruct cpl as [o|]; [destruct (data o) as [lists|]|]; try silent.
  destruct (map_or_throw _ lists); silent.
Qed.

(** C5: each of the six store methods raises to its caller as soon as an
    API response is error-shaped, and issues no further request (no
    retry). *)
Theorem store_methods_raise_on_error_response :
  forall type body lid iid cpl it olid,
    raises_on_error (createCustomerProductList type)
    /\ raises_on_error (createCustomerProductListItem body lid)
    /\ raises_on_error (updateCustomerProductListItem body lid iid)
    /\ raises_on_error getCustomerProductLists
    /\ raises_on_error (fetchOrCreateProductLists type)
    /\ raises_on_error (deleteCustomerProductListItem cpl it olid).
Proof.
  intros.
  split; [apply createCustomerProductList_raises|].
  split; [apply createCustomerProductListItem_raises|].
  split; [apply updateCustomerProductListItem_raises|].
  split; [apply getCustomerProductLists_raises|].
  split; [apply fetchOrCreateProductLists_raises|].
  apply deleteCustomerProductListItem_raises.
Qed.

(** *** Deleting an item *)

Lemma id_is_true i lid : id_is i lid = true <-> lid = Some i.
Proof.
  unfold id_is. destruct lid as [l|]; split; try discriminate.
  - intros H. apply String.eqb_eq in H. now subst.
  - intros H. inversion H. apply String.eqb_refl.
Qed.

Lemma map_or_throw_length {A B} (f : A -> option B) l :
  forall l', map_or_throw f l = Some l' -> length l' = length l.
Proof.
  induction l as [|x more IH]; cbn; intros l' H.
  - now inversion H.
  - destruct (f x); [|discriminate].
    destruct (map_or_throw f more) as [ys|]; [|discriminate].
    inversion H. cbn. now rewrite (IH ys).
Qed.

Lemma map_or_throw_nth {A B} (f : A -> option B) l :
  forall l' n x,
    map_or_throw f l = Some l' ->
    nth_error l n = Some x ->
    exists y, f x = Some y /\ nth_error l' n = Some y.
Proof.
  induction l as [|x0 more IH]; cbn; intros l' n x H Hn.
  - destruct n; discriminate.
  - destruct (f x0) as [y0|] eqn:Hf; [|discriminate].
    destruct (map_or_throw f more) as [ys|]; [|discriminate].
    inversion H; subst l'. destruct n as [|n]; cbn in *.
    + inversion Hn; subst. eauto.
    + now apply (IH ys).
Qed.

Lemma map_or_throw_defined {A B} (f : A -> option B) l :
  (forall x, In x l -> f x <> None) ->
  exists l', map_or_throw f l = Some l'.
Proof.
  induction l as [|x more IH]; cbn; intros Hall; [eauto|].
  destruct (f x) as [y|] eqn:Hf.
  - destruct IH as [ys ->]; [|eauto].
    intros z Hz. apply Hall. now right.
  - exfalso. apply (Hall x); auto.
Qed.

Lemma map_or_throw_throws {A B} (f : A -> option B) l x :
  In x l -> f x = None -> map_or_throw f l = None.
Proof.
  induction l as [|x0 more IH]; cbn; [contradiction|].
  intros [-> | Hin] Hf.
  - now rewrite Hf.
  - destruct (f x0); [|reflexivity]. now rewrite (IH Hin Hf).
Qed.

Lemma remove_item_other itemId lid list :
  id_is (pl_id list) lid = false -> remove_item itemId lid list = Some list.
Proof. intros H. unfold remove_item. now rewrite H. Qed.

Lemma remove_item_target itemId lid list items :
  lid = Some (pl_id list) ->
  customerProductListItems list = Some items ->
  remove_item itemId lid list
  = Some (mkList (pl_id list) (pl_type list)
            (Some (filter (fun x => negb (pli_id x =? itemId)) items))
            (pl_rest list)).
Proof.
  intros Hid Hitems. unfold remove_item.
  apply id_is_true in Hid. now rewrite Hid, Hitems.
Qed.

Lemma remove_item_defined itemId lid lists :
  (forall list,
     In list lists -> lid = Some (pl_id list) ->
     customerProductListItems list <> None) ->
  exists updated, map_or_throw (remove_item itemId lid) lists = Some updated.
Proof.
  intros Hall. apply map_or_throw_defined. intros list Hin.
  unfold remove_item. destruct (id_is (pl_id list) lid) eqn:Hid;
    [|discriminate].
  apply id_is_true in Hid.
  destruct (customerProductListItems list) eqn:Hitems; [discriminate|].
  exfalso. now apply (Hall list Hin Hid).
Qed.

Lemma deleteCustomerProductListItem_ok o lists updated it lid st v w :
  data o = Some lists ->
  serve (world st) (DeleteCustomerProductListItem (ei_id it) lid customerId)
    = (Resolved v, w) ->
  isError v = false ->
  map_or_throw (remove_item (ei_id it) lid) lists = Some updated ->
  deleteCustomerProductListItem (Some o) it lid st
  = mkRun (Returned tt)
      (mkState (settled st w) (Some (mkObj (Some updated) (rest o)))
         (isLoading st) w true)
      [Call (DeleteCustomerProductListItem (ei_id it) lid customerId)
            (Resolved v)].
Proof.
  intros Hd Hs He Hu. unfold deleteCustomerProductListItem. unfold_monad.
  cbn. rewrite Hs. cbn. rewrite He, Hd, Hu. reflexivity.
Qed.

Lemma deleteCustomerProductListItem_mistyped o lists it lid st v w :
  data o = Some lists ->
  serve (world st) (DeleteCustomerProductListItem (ei_id it) lid customerId)
    = (Resolved v, w) ->
  isError v = false ->
  map_or_throw (remove_item (ei_id it) lid) lists = None ->
  deleteCustomerProductListItem (Some o) it lid st
  = mkRun (Thrown TypeError)
      (mkState (settled st w) (context st) (isLoading st) w
         (overlapping st))
      [Call (DeleteCustomerProductListItem (ei_id it) lid customerId)
            (Resolved v)].
Proof.
  intros Hd Hs He Hu. unfold deleteCustomerProductListItem. unfold_monad.
  cbn. rewrite Hs. cbn. rewrite He, Hd, Hu. reflexivity.
Qed.

(** C4: after a successful delete request the new snapshot is the one the
    hook closed over with the item filtered, by item id, out of the items
    of the list whose id is [listId], that list being otherwise as it was;
    the delete is the only request issued, so the product lists are not
    fetched again.  (A list [listId] without [customerProductListItems]
    makes the method throw instead, see C10.) *)
Theorem delete_filters_item_and_does_not_refetch o lists it lid st v w :
  data o = Some lists ->
  serve (world st) (DeleteCustomerProductListItem (ei_id it) lid customerId)
    = (Resolved v, w) ->
  isError v = false ->
  (forall list,
     In list lists -> lid = Some (pl_id list) ->
     customerProductListItems list <> None) ->
  let r := deleteCustomerProductListItem (Some o) it lid st in
  outcome r = Returned tt
  /\ requests (effects r)
     = [DeleteCustomerProductListItem (ei_id it) lid customerId]
  /\ filter is_refetch (effects r) = []
  /\ exists lists',
      context (final r) = Some (mkObj (Some lists') (rest o))
      /\ forall n list items,
          nth_error lists n = Some list ->
          lid = Some (pl_id list) ->
          customerProductListItems list = Some items ->
          exists list' kept,
            nth_error lists' n = Some list'
            /\ pl_id list' = pl_id list
            /\ pl_type list' = pl_type list
            /\ pl_rest list' = pl_rest list
            /\ customerProductListItems list' = Some kept
            /\ kept = filter (fun x => negb (pli_id x =? ei_id it)) items
            /\ forall x,
                In x kept <-> In x items /\ pli_id x <> ei_id it.
Proof.
  intros Hd Hs He Hitems r. subst r.
  destruct (remove_item_defined (ei_id it) lid lists Hitems)
    as [updated Hu].
  rewrite (deleteCustomerProductListItem_ok _ _ _ _ _ _ _ _ Hd Hs He Hu).
  cbn. repeat split.
  exists updated. split; [reflexivity|].
  intros n list items Hn Hid Hl.
  destruct (map_or_throw_nth _ _ _ _ _ Hu Hn) as [list' [Hr Hn']].
  rewrite (remove_item_target _ _ _ _ Hid Hl) in Hr.
  inversion Hr; subst list'. eexists. eexists.
  split; [exact Hn'|]. cbn. repeat (split; [reflexivity|]).
  intros x. rewrite filter_In, negb_true_iff, String.eqb_neq. reflexivity.
Qed.

(** C10: a successful delete keeps every product list whose id differs from
    [listId] exactly as it was, at the same position, and keeps every field
    of the snapshot other than [data].  When a list [listId] has no
    [customerProductListItems] the method throws a [TypeError] after the
    request and does not write the snapshot at all. *)
Theorem delete_leaves_other_lists_and_fields o lists it lid st v w :
  data o = Some lists ->
  serve (world st) (DeleteCustomerProductListItem (ei_id it) lid customerId)
    = (Resolved v, w) ->
  isError v = false ->
  let r := deleteCustomerProductListItem (Some o) it lid st in
  ((forall list,
      In list lists -> lid = Some (pl_id list) ->
      customerProductListItems list <> None) ->
   exists o' lists',
     context (final r) = Some o'
     /\ rest o' = rest o
     /\ data o' = Some lists'
     /\ length lists' = length lists
     /\ forall n list,
         nth_error lists n = Some list ->
         id_is (pl_id list) lid = false ->
         nth_error lists' n = Some list)
  /\ (forall list,
        In list lists -> lid = Some (pl_id list) ->
        customerProductListItems list = None ->
        outcome r = Thrown TypeError
        /\ context (final r) = context st).
Proof.
  intros Hd Hs He r. subst r. split.
  - intros Hitems.
    destruct (remove_item_defined (ei_id it) lid lists Hitems)
      as [updated Hu].
    rewrite (deleteCustomerProductListItem_ok _ _ _ _ _ _ _ _ Hd Hs He Hu).
    cbn. eexists. eexists. repeat split.
    + now apply (map_or_throw_length _ _ _ Hu).
    + intros n list Hn Hid.
      destruct (map_or_throw_nth _ _ _ _ _ Hu Hn) as [list' [Hr Hn']].
      rewrite (remove_item_other _ _ _ Hid) in Hr.
      now inversion Hr; subst.
  - intros list Hin Hid Hnone.
    rewrite (deleteCustomerProductListItem_mistyped _ _ _ _ _ _ _ Hd Hs He).
    + cbn. auto.
    + apply (map_or_throw_throws _ _ list Hin).
      unfold remove_item. apply id_is_true in Hid.
      now rewrite Hid, Hnone.
Qed.

(** *** Fetching or creating the lists *)

Lemma has_list_of_type_spec response type :
  has_list_of_type response type = true
  <-> exists o lists list,
        response = Some o /\ data o = Some lists
        /\ In list lists /\ pl_type list = type.
Proof.
  unfold has_list_of_type. split.
  - destruct response as [[[lists|] f]|]; try discriminate.
    intros H. apply andb_true_iff in H. destruct H as [_ H].
    apply existsb_exists in H. destruct H as [list [Hin Ht]].
    apply String.eqb_eq in Ht.
    exists (mkObj (Some lists) f), lists, list. auto.
  - intros [o [lists [list [-> [Hd [Hin Ht]]]]]].
    destruct o as [d f]. cbn in Hd. subst d.
    apply andb_true_iff. split.
    + destruct lists; [contradiction | reflexivity].
    + apply existsb_exists. exists list. split; [assumption|].
      now apply String.eqb_eq.
Qed.

(** C6: [fetchOrCreateProductLists type] first fetches all lists.  When a
    fetched list has the requested type the response becomes the snapshot
    and nothing else is requested.  Otherwise a list of that type is
    created next, and once that succeeds the whole collection is fetched
    again (and, fetched successfully, becomes the snapshot). *)
Theorem fetchOrCreateProductLists_fetches_then_creates type st v w :
  serve (world st) (GetCustomerProductLists customerId) = (Resolved v, w) ->
  isError v = false ->
  let r := fetchOrCreateProductLists type st in
  let fetch := GetCustomerProductLists customerId in
  let create := CreateCustomerProductList type customerId in
  let matches :=
    exists o lists list,
      v = Some o /\ data o = Some lists /\ In list lists
      /\ pl_type list = type in
  (matches ->
     outcome r = Returned tt
     /\ context (final r) = v
     /\ effects r = [Call fetch (Resolved v)])
  /\ (~ matches ->
      exists res more,
        effects r = Call fetch (Resolved v) :: Call create res :: more
        /\ forall v1, res = Resolved v1 -> isError v1 = false ->
           exists res2,
             more = [Call fetch res2]
             /\ forall v2, res2 = Resolved v2 -> isError v2 = false ->
                outcome r = Returned tt /\ context (final r) = v2).
Proof.
  intros Hs He r fetch create matches. subst r fetch create matches.
  unfold fetchOrCreateProductLists, getCustomerProductLists.
  unfold_monad. cbn. rewrite Hs. cbn. rewrite He.
  split.
  - intros Hm. apply has_list_of_type_spec in Hm. rewrite Hm. cbn. auto.
  - intros Hm.
    destruct (has_list_of_type v type) eqn:Hh.
    { exfalso. apply Hm. now apply has_list_of_type_spec. }
    cbn.
    destruct (serve w (CreateCustomerProductList type customerId))
      as [res w1] eqn:Hc.
    destruct res as [v1|]; cbn.
    + destruct (isError v1) eqn:He1; cbn.
      * eexists. eexists. split; [reflexivity|].
        intros v1' Hv1. inversion Hv1; subst. congruence.
      * destruct (serve w1 (GetCustomerProductLists customerId))
          as [res2 w2] eqn:Hg.
        destruct res2 as [v2|]; cbn.
        -- destruct (isError v2) eqn:He2; cbn;
             (eexists; eexists; split; [reflexivity|]);
             intros _ _ _; (eexists; split; [reflexivity|]);
             intros v2' Hv2; inversion Hv2; subst;
             intros; try congruence; auto.
        -- eexists. eexists. split; [reflexivity|].
           intros _ _ _. eexists. split; [reflexivity|]. discriminate.
    + eexists. eexists. split; [reflexivity|]. discriminate.
Qed.

(** *** The drain trigger *)

Lemma after_nil {A} (r : Run World A) : after [] r = r.
Proof. now destruct r. Qed.

Lemma effect_guard_reads_only cpl st :
  final (effect_guard cpl st) = st /\ effects (effect_guard cpl st) = [].
Proof.
  unfold effect_guard.
  destruct (eventQueue st); [now split|].
  destruct cpl as [o|]; [|now split].
  destruct (data o); now split.
Qed.

Lemma effect_guard_true cpl st :
  outcome (effect_guard cpl st) = Returned true
  <-> eventQueue st <> []
      /\ exists o lists, cpl = Some o /\ data o = Some lists /\ lists <> [].
Proof.
  unfold effect_guard. split.
  - destruct (eventQueue st); [discriminate|].
    destruct cpl as [o|]; [|discriminate].
    destruct (data o) as [lists|] eqn:Hd; [|discriminate].
    destruct lists; [discriminate|]. intros _.
    split; [discriminate|]. eexists. eexists.
    repeat split; [eassumption | discriminate].
  - intros [Hq [o [lists [-> [Hd Hne]]]]].
    destruct (eventQueue st); [congruence|].
    rewrite Hd. destruct lists; [congruence | reflexivity].
Qed.

(** C7: the effect calls [processEventQueue] only when the queue is not
    empty and the snapshot's [data] holds at least one list; in every other
    case the queue is left as it was and nothing is requested, so a drain
    never starts on an empty or undefined snapshot. *)
Theorem drain_only_when_queue_and_lists_nonempty cpl st :
  let ready :=
    eventQueue st <> []
    /\ exists o lists, cpl = Some o /\ data o = Some lists /\ lists <> [] in
  (outcome (effect_guard cpl st) = Returned true <-> ready)
  /\ (ready -> useEffect cpl st = processEventQueue cpl st)
  /\ (~ ready ->
      final (useEffect cpl st) = st /\ effects (useEffect cpl st) = []).
Proof.
  cbn zeta. split; [apply effect_guard_true|].
  pose proof (effect_guard_true cpl st) as Ht.
  destruct (effect_guard_reads_only cpl st) as [Hf He].
  unfold useEffect, bind.
  destruct (effect_guard cpl st) as [out fin eff]. cbn in *. subst fin eff.
  split.
  - intros Hr. apply Ht in Hr. subst out. apply after_nil.
  - intros Hn. destruct out as [[|]|e]; cbn; auto.
    exfalso. apply Hn, Ht. reflexivity.
Qed.

(** *** Draining the queue *)

Lemma drops_only_bind {A B} (m : M A) (k : A -> M B) :
  drops_only m -> (forall a, drops_only (k a)) -> drops_only (bind m k).
Proof.
  intros Hm Hk st. destruct (Hm st) as [k1 H1]. unfold bind.
  destruct (m st) as [[a|e] st1 t1]; cbn in *; [|eauto].
  destruct (Hk a st1) as [k2 H2]. destruct (k a st1). cbn in *.
  exists (k2 + k1)%nat. now rewrite H2, H1, skipn_skipn.
Qed.

Lemma drops_only_try_catch {A} (m : M A) (handler : Exn -> M A) :
  drops_only m -> (forall e, drops_only (handler e)) ->
  drops_only (try_catch m handler).
Proof.
  intros Hm Hh st. destruct (Hm st) as [k1 H1]. unfold try_catch.
  destruct (m st) as [[a|e] st1 t1]; cbn in *; [eauto|].
  destruct (Hh e st1) as [k2 H2]. destruct (handler e st1). cbn in *.
  exists (k2 + k1)%nat. now rewrite H2, H1, skipn_skipn.
Qed.

Lemma drops_only_api r : drops_only (api r).
Proof.
  intros st. unfold api, settled.
  destruct (serve (world st) r) as [[v|] w];
    (destruct (overlapping st); cbn; [eauto | now exists 0%nat]).
Qed.

Lemma drops_only_untouched {A} (m : M A) :
  (forall st, eventQueue (final (m st)) = eventQueue st) -> drops_only m.
Proof. intros H st. exists 0%nat. apply H. Qed.

Lemma drops_only_optional_call cb e : drops_only (optional_call cb e).
Proof. apply drops_only_untouched. intros st. now destruct cb. Qed.

Ltac queue_drops :=
  repeat first
    [ apply drops_only_bind; [|intros ?]
    | apply drops_only_api
    | apply drops_only_optional_call
    | match goal with
      | |- drops_only (if ?b then _ else _) => destruct b
      | |- drops_only (match ?x with Some _ => _ | None => _ end) =>
          destruct x
      end
    | solve [apply drops_only_untouched; intros ?; reflexivity] ].

Lemma updateItemToWishlist_drops pid existing q wid :
  drops_only (updateItemToWishlist pid existing q wid).
Proof.
  unfold updateItemToWishlist, updateCustomerProductListItem,
    getCustomerProductLists. queue_drops.
Qed.

Lemma addItemToWishlist_drops pid q wid :
  drops_only (addItemToWishlist pid q wid).
Proof.
  unfold addItemToWishlist, createCustomerProductListItem,
    getCustomerProductLists. queue_drops.
Qed.

Lemma deleteCustomerProductListItem_drops cpl it lid :
  drops_only (deleteCustomerProductListItem cpl it lid).
Proof. unfold deleteCustomerProductListItem. queue_drops. Qed.

Lemma processEvent_drops cpl event : drops_only (processEvent cpl event).
Proof.
  unfold processEvent.
  destruct (action event =? eventActions.ADD);
    [|destruct (action event =? eventActions.REMOVE)].
  - apply drops_only_try_catch; [|intros _; queue_drops].
    unfold getProductListPerType.
    apply drops_only_bind.
    + destruct cpl as [o|]; [destruct (data o)|];
        apply drops_only_untouched; intros st; reflexivity.
    + intros [wishlist|];
        [|apply drops_only_untouched; intros st; reflexivity].
      destruct (customerProductListItems wishlist) as [items|];
        [|apply drops_only_untouched; intros st; reflexivity].
      destruct (find _ items).
      * apply drops_only_bind;
          [apply updateItemToWishlist_drops | intros _].
        queue_drops.
      * apply drops_only_bind;
          [apply addItemToWishlist_drops | intros _].
        queue_drops.
  - apply drops_only_try_catch; [|intros _; queue_drops].
    apply drops_only_bind;
      [apply deleteCustomerProductListItem_drops | intros _].
    queue_drops.
  - apply drops_only_untouched. intros st. reflexivity.
Qed.

Lemma skipn_no_longer {A} k (l : list A) : (length (skipn k l) <= length l)%nat.
Proof. rewrite length_skipn. lia. Qed.

Lemma drain_cons turns cpl event remaining st :
  eventQueue st = event :: remaining ->
  drain (S turns) cpl st
  = let r := processEvent cpl event (dequeued remaining st) in
    match outcome r with
    | Returned Continue => after (effects r) (drain turns cpl (final r))
    | Returned ReturnNow => mkRun (Returned tt) (final r) (effects r)
    | Thrown e => mkRun (Thrown e) (final r) (effects r)
    end.
Proof.
  intros Hq. cbn [drain]. rewrite Hq. unfold bind at 1. cbn.
  unfold bind at 1. fold (dequeued remaining st).
  destruct (processEvent cpl event (dequeued remaining st))
    as [[[|]|e] fin eff]; cbn.
  - now destruct (drain turns cpl fin).
  - now rewrite app_nil_r.
  - reflexivity.
Qed.

(** The turns the loop is given do not matter once they cover the queue:
    the loop ends on an empty queue before it runs out of them. *)
Lemma drain_turns cpl n :
  forall m st,
    (length (eventQueue st) <= n)%nat ->
    (length (eventQueue st) <= m)%nat ->
    drain n cpl st = drain m cpl st.
Proof.
  induction n as [|n IH]; intros m st Hn Hm.
  - destruct (eventQueue st) eqn:Hq; [|cbn in Hn; lia].
    destruct m; cbn; [reflexivity | now rewrite Hq].
  - destruct (eventQueue st) as [|event remaining] eqn:Hq.
    + destruct m; cbn; now rewrite ?Hq.
    + destruct m as [|m]; [cbn in Hm; lia|].
      rewrite !(drain_cons _ _ _ _ _ Hq). cbn zeta.
      destruct (processEvent_drops cpl event (dequeued remaining st))
        as [k Hk].
      destruct (processEvent cpl event (dequeued remaining st))
        as [[[|]|e] fin eff]; cbn in *; try reflexivity.
      pose proof (skipn_no_longer k remaining) as Hlen.
      rewrite (IH m fin); [reflexivity | |]; rewrite Hk; lia.
Qed.

(** One turn of [processEventQueue]: the head of the queue is shifted off
    and processed, and unless that returned from the function, the drain
    goes on from the state this leaves. *)
Lemma drain_step cpl event remaining st :
  eventQueue st = event :: remaining ->
  processEventQueue cpl st
  = let r := processEvent cpl event (dequeued remaining st) in
    match outcome r with
    | Returned Continue =>
        after (effects r) (processEventQueue cpl (final r))
    | Returned ReturnNow => mkRun (Returned tt) (final r) (effects r)
    | Thrown e => mkRun (Thrown e) (final r) (effects r)
    end.
Proof.
  intros Hq. unfold processEventQueue. rewrite Hq. cbn [length].
  rewrite (drain_cons _ _ _ _ _ Hq). cbn zeta.
  destruct (processEvent_drops cpl event (dequeued remaining st))
    as [k Hk].
  destruct (processEvent cpl event (dequeued remaining st))
    as [[[|]|e] fin eff]; cbn in *; try reflexivity.
  pose proof (skipn_no_longer k remaining) as Hlen.
  rewrite (drain_turns cpl (length remaining) (length (eventQueue fin)) fin);
    [reflexivity | rewrite Hk; lia | lia].
Qed.

Lemma processEvent_existing o lists wishlist items existing event st :
  action event = eventActions.ADD ->
  data o = Some lists ->
  find (fun list => pl_type list =? WISHLIST) lists = Some wishlist ->
  customerProductListItems wishlist = Some items ->
  find (fun i => pli_productId i =? ei_id (item event)) items
  = Some existing ->
  processEvent (Some o) event st
  = let r := updateItemToWishlist (ei_id (item event)) existing
               (ei_quantity (item event)) (pl_id wishlist) st in
    match outcome r, onSuccess event with
    | Returned _, Some f =>
        mkRun (Returned ReturnNow) (final r)
          (effects r ++ [OnSuccess f (Some (ei_quantity (item event)))])
    | _, _ =>
        mkRun (Returned Continue) (final r) (effects r ++ error_report event)
    end.
Proof.
  intros Ha Hd Hw Hl Hi. unfold processEvent, getProductListPerType.
  rewrite Ha, Hd. step. unfold try_catch, bind at 1. step.
  rewrite Hw, Hl, Hi.
  unfold bind at 1, error_report.
  destruct (updateItemToWishlist _ _ _ _ st) as [[v|e] fin eff]; cbn.
  - destruct (onSuccess event) as [f|]; cbn.
    + reflexivity.
    + destruct (onError event); cbn; now rewrite ?app_nil_r.
  - destruct (onSuccess event), (onError event); cbn; now rewrite ?app_nil_r.
Qed.

Lemma processEvent_absent o lists wishlist items event st :
  action event = eventActions.ADD ->
  data o = Some lists ->
  find (fun list => pl_type list =? WISHLIST) lists = Some wishlist ->
  customerProductListItems wishlist = Some items ->
  find (fun i => pli_productId i =? ei_id (item event)) items = None ->
  processEvent (Some o) event st
  = let r := addItemToWishlist (ei_id (item event))
               (ei_quantity (item event)) (pl_id wishlist) st in
    match outcome r with
    | Returned _ =>
        mkRun (Returned ReturnNow) (final r)
          (effects r
           ++ match onSuccess event with
              | Some f => [OnSuccess f (Some (ei_quantity (item event)))]
              | None => []
              end)
    | Thrown _ =>
        mkRun (Returned Continue) (final r) (effects r ++ error_report event)
    end.
Proof.
  intros Ha Hd Hw Hl Hi. unfold processEvent, getProductListPerType.
  rewrite Ha, Hd. step. unfold try_catch, bind at 1. step.
  rewrite Hw, Hl, Hi.
  unfold bind at 1, error_report.
  destruct (addItemToWishlist _ _ _ st) as [[v|e] fin eff]; cbn.
  - destruct (onSuccess event); cbn; now rewrite ?app_nil_r.
  - destruct (onError event); cbn; now rewrite ?app_nil_r.
Qed.

Lemma processEvent_remove cpl event st :
  action event = eventActions.REMOVE ->
  processEvent cpl event st
  = let r := deleteCustomerProductListItem cpl (item event)
               (listId event) st in
    match outcome r with
    | Returned _ =>
        mkRun (Returned Continue) (final r)
          (effects r
           ++ match onSuccess event with
              | Some f => [OnSuccess f None]
              | None => []
              end)
    | Thrown _ =>
        mkRun (Returned Continue) (final r) (effects r ++ error_report event)
    end.
Proof.
  intros Ha. unfold processEvent. rewrite Ha. step.
  unfold try_catch, bind at 1, error_report.
  destruct (deleteCustomerProductListItem _ _ _ st) as [[v|e] fin eff]; cbn.
  - destruct (onSuccess event); cbn; now rewrite ?app_nil_r.
  - destruct (onError event); cbn; now rewrite ?app_nil_r.
Qed.

Lemma updateCustomerProductListItem_ok body lid iid st v1 w1 v2 w2 :
  serve (world st) (UpdateCustomerProductListItem body customerId lid iid)
    = (Resolved v1, w1) ->
  isError v1 = false ->
  serve w1 (GetCustomerProductLists customerId) = (Resolved v2, w2) ->
  isError v2 = false ->
  updateCustomerProductListItem body lid iid st
  = mkRun (Returned v1)
      (mkState
         (if overlapping st
          then skipn (taken w2) (skipn (taken w1) (eventQueue st))
          else eventQueue st)
         v2 false w2 true)
      [Log body;
       Call (UpdateCustomerProductListItem body customerId lid iid)
            (Resolved v1);
       Call (GetCustomerProductLists customerId) (Resolved v2)].
Proof.
  intros H1 E1 H2 E2.
  unfold updateCustomerProductListItem, getCustomerProductLists.
  unfold_monad. cbn. rewrite H1. cbn. rewrite E1. cbn. rewrite H2. cbn.
  rewrite E2. unfold settled. cbn. now destruct (overlapping st).
Qed.


Lemma bind_setIsLoading {A} b (k : unit -> M A) st :
  bind (setIsLoading b) k st
  = k tt (mkState (eventQueue st) (context st) b (world st)
            (overlapping st)).
Proof. unfold bind, setIsLoading. apply after_nil. Qed.

Lemma bind_emit {A} e (k : unit -> M A) st :
  bind (emit e) k st = after [e] (k tt st).
Proof. reflexivity. Qed.

Lemma bind_api_effects {A} r (k : Value -> M A) st :
  exists res more, effects (bind (api r) k st) = Call r res :: more.
Proof.
  unfold bind, api. destruct (serve (world st) r) as [[v|] w]; cbn.
  - destruct (k v _) as [out fin eff]. cbn. eauto.
  - eauto.
Qed.

Lemma updateCustomerProductListItem_starts body lid iid st :
  exists res more,
    effects (updateCustomerProductListItem body lid iid st)
    = Log body
      :: Call (UpdateCustomerProductListItem body customerId lid iid) res
      :: more.
Proof.
  unfold updateCustomerProductListItem.
  rewrite bind_setIsLoading, bind_emit.
  match goal with
  | |- context [bind (api ?r) ?k ?s] =>
      destruct (bind_api_effects r k s) as [res [more H]];
      destruct (bind (api r) k s) as [out fin eff]
  end.
  cbn in *. subst eff. eauto.
Qed.


(** The effects of a drain begin with the effects of its first event. *)
Lemma drain_effects_begin cpl event remaining st :
  eventQueue st = event :: remaining ->
  exists more,
    effects (processEventQueue cpl st)
    = effects (processEvent cpl event (dequeued remaining st)) ++ more.
Proof.
  intros Hq. rewrite (drain_step _ _ _ _ Hq). cbn zeta.
  destruct (processEvent cpl event (dequeued remaining st))
    as [[[|]|e] fin eff]; cbn.
  - destruct (processEventQueue cpl fin) as [out2 fin2 eff2]. cbn. eauto.
  - exists []. now rewrite app_nil_r.
  - exists []. now rewrite app_nil_r.
Qed.

(** C1, as the code has it: when the drain reaches an add action whose
    product id matches an item of the wish list, it issues an update request
    whose quantity is the existing item's quantity plus the requested one;
    when that request and the re-fetch after it succeed, the action's
    success callback is invoked with the requested quantity. *)
Theorem queued_add_of_existing_product_updates_quantity
    o lists wishlist items existing event remaining st :
  eventQueue st = event :: remaining ->
  action event = eventActions.ADD ->
  data o = Some lists ->
  find (fun list => pl_type list =? WISHLIST) lists = Some wishlist ->
  customerProductListItems wishlist = Some items ->
  find (fun i => pli_productId i =? ei_id (item event)) items
  = Some existing ->
  let requested := ei_quantity (item event) in
  let body :=
    mkBody (ei_id (item event)) 1 (pli_quantity existing + requested) false
           "product" in
  let update :=
    UpdateCustomerProductListItem body customerId (pl_id wishlist)
                                  (pli_id existing) in
  let fetch := GetCustomerProductLists customerId in
  let r := processEventQueue (Some o) st in
  (exists res more, effects r = Log body :: Call update res :: more)
  /\ forall v1 w1 v2 w2 f,
      serve (world st) update = (Resolved v1, w1) ->
      isError v1 = false ->
      serve w1 fetch = (Resolved v2, w2) ->
      isError v2 = false ->
      onSuccess event = Some f ->
      outcome r = Returned tt
      /\ effects r
         = [Log body; Call update (Resolved v1); Call fetch (Resolved v2);
            OnSuccess f (Some requested)].
Proof.
  intros Hq Ha Hd Hw Hl Hi requested body update fetch r.
  subst requested body update fetch r. split.
  - destruct (drain_effects_begin (Some o) event remaining st Hq)
      as [more ->].
    rewrite (processEvent_existing _ _ _ _ _ _ _ Ha Hd Hw Hl Hi). cbn zeta.
    unfold updateItemToWishlist.
    destruct (updateCustomerProductListItem_starts
                (mkBody (ei_id (item event)) 1
                   (pli_quantity existing + ei_quantity (item event)) false
                   "product")
                (pl_id wishlist) (pli_id existing) (dequeued remaining st))
      as [res [more' Hstart]].
    destruct (updateCustomerProductListItem _ _ _ _) as [out fin eff].
    cbn in Hstart. subst eff.
    destruct out, (onSuccess event); cbn; eexists; eexists; reflexivity.
  - intros v1 w1 v2 w2 f H1 E1 H2 E2 Hf.
    rewrite (drain_step _ _ _ _ Hq),
      (processEvent_existing _ _ _ _ _ _ _ Ha Hd Hw Hl Hi).
    cbn zeta. unfold updateItemToWishlist.
    rewrite (updateCustomerProductListItem_ok _ _ _ _ v1 w1 v2 w2);
      auto.
    cbn. rewrite Hf. cbn. auto.
Qed.


(** C9: an add action for a product already in the wish list that carries
    no success callback ends in the error handler even though the update
    and the re-fetch succeeded: the error callback, if there is one, is
    invoked, and the drain goes on with the actions left in the queue
    (those remaining, less what another drain took during the two
    waits). *)
Theorem add_existing_without_success_callback_reports_error
    o lists wishlist items existing event remaining st v1 w1 v2 w2 :
  eventQueue st = event :: remaining ->
  action event = eventActions.ADD ->
  data o = Some lists ->
  find (fun list => pl_type list =? WISHLIST) lists = Some wishlist ->
  customerProductListItems wishlist = Some items ->
  find (fun i => pli_productId i =? ei_id (item event)) items
  = Some existing ->
  onSuccess event = None ->
  let body :=
    mkBody (ei_id (item event)) 1
           (pli_quantity existing + ei_quantity (item event)) false
           "product" in
  let update :=
    UpdateCustomerProductListItem body customerId (pl_id wishlist)
                                  (pli_id existing) in
  let fetch := GetCustomerProductLists customerId in
  let left :=
    if overlapping st
    then skipn (taken w2) (skipn (taken w1) remaining)
    else remaining in
  serve (world st) update = (Resolved v1, w1) ->
  isError v1 = false ->
  serve w1 fetch = (Resolved v2, w2) ->
  isError v2 = false ->
  processEventQueue (Some o) st
  = after ([Log body; Call update (Resolved v1); Call fetch (Resolved v2)]
           ++ match onError event with
              | Some f => [OnError f]
              | None => []
              end)
          (processEventQueue (Some o) (mkState left v2 false w2 true)).
Proof.
  intros Hq Ha Hd Hw Hl Hi Hs body update fetch left H1 E1 H2 E2.
  subst body update fetch left.
  rewrite (drain_step _ _ _ _ Hq),
    (processEvent_existing _ _ _ _ _ _ _ Ha Hd Hw Hl Hi).
  cbn zeta. unfold updateItemToWishlist.
  rewrite (updateCustomerProductListItem_ok _ _ _ _ v1 w1 v2 w2); auto.
  cbn. rewrite Hs. reflexivity.
Qed.

(** C3: when the request behind the action at the head of the queue
    throws, the drain catches the error, invokes the action's error
    callback if there is one, and carries on with the actions left in the
    queue. *)
Theorem failed_action_reports_error_and_drain_continues
    cpl event remaining st e st1 t :
  eventQueue st = event :: remaining ->
  request_throws cpl event (dequeued remaining st) e st1 t ->
  processEventQueue cpl st
  = after (t ++ match onError event with
                | Some f => [OnError f]
                | None => []
                end)
          (processEventQueue cpl st1).
Proof.
  intros Hq Hthrows. rewrite (drain_step _ _ _ _ Hq).
  inversion Hthrows as [o lists wishlist items existing Ha Hc Hd Hw Hl Hi Hrun
                       | o lists wishlist items Ha Hc Hd Hw Hl Hi Hrun
                       | Ha Hrun].
  - subst cpl. rewrite (processEvent_existing _ _ _ _ _ _ _ Ha Hd Hw Hl Hi).
    cbn zeta. rewrite Hrun. reflexivity.
  - subst cpl. rewrite (processEvent_absent _ _ _ _ _ _ Ha Hd Hw Hl Hi).
    cbn zeta. rewrite Hrun. reflexivity.
  - rewrite (processEvent_remove _ _ _ Ha). cbn zeta. rewrite Hrun.
    reflexivity.
Qed.

(** *** More on the drain *)

Lemma processEvent_no_wishlist cpl event st :
  action event = eventActions.ADD ->
  (forall o lists,
     cpl = Some o -> data o = Some lists ->
     find (fun list => pl_type list =? WISHLIST) lists = None) ->
  processEvent cpl event st
  = mkRun (Returned Continue) st (error_report event).
Proof.
  intros Ha Hnone. unfold processEvent, getProductListPerType.
  rewrite Ha. step. unfold error_report.
  destruct cpl as [o|].
  - destruct (data o) as [lists|] eqn:Hd.
    + unfold try_catch, bind at 1. step.
      rewrite (Hnone o lists eq_refl Hd). step.
      destruct (onError event); reflexivity.
    + unfold try_catch, bind at 1. step.
      destruct (onError event); reflexivity.
  - unfold try_catch, bind at 1. step.
    destruct (onError event); reflexivity.
Qed.

Lemma processEvent_no_items o lists wishlist event st :
  action event = eventActions.ADD ->
  data o = Some lists ->
  find (fun list => pl_type list =? WISHLIST) lists = Some wishlist ->
  customerProductListItems wishlist = None ->
  processEvent (Some o) event st
  = mkRun (Returned Continue) st (error_report event).
Proof.
  intros Ha Hd Hw Hl. unfold processEvent, getProductListPerType.
  rewrite Ha, Hd. step. unfold try_catch, bind at 1. step.
  rewrite Hw, Hl. step. unfold error_report.
  destruct (onError event); reflexivity.
Qed.

Lemma processEvent_other cpl event st :
  action event <> eventActions.ADD ->
  action event <> eventActions.REMOVE ->
  processEvent cpl event st = mkRun (Returned Continue) st [].
Proof.
  intros Ha Hr. unfold processEvent.
  apply String.eqb_neq in Ha. apply String.eqb_neq in Hr.
  now rewrite Ha, Hr.
Qed.

Lemma drain_after_successful_remove
    o lists updated event remaining st v w :
  eventQueue st = event :: remaining ->
  action event = eventActions.REMOVE ->
  data o = Some lists ->
  let delete :=
    DeleteCustomerProductListItem (ei_id (item event)) (listId event)
                                  customerId in
  let left :=
    if overlapping st then skipn (taken w) remaining else remaining in
  serve (world st) delete = (Resolved v, w) ->
  isError v = false ->
  map_or_throw (remove_item (ei_id (item event)) (listId event)) lists
  = Some updated ->
  processEventQueue (Some o) st
  = after (Call delete (Resolved v)
           :: match onSuccess event with
              | Some f => [OnSuccess f None]
              | None => []
              end)
      (processEventQueue (Some o)
         (mkState left (Some (mkObj (Some updated) (rest o)))
            (isLoading st) w true)).
Proof.
  intros Hq Ha Hd delete left Hs He Hu. subst delete left.
  rewrite (drain_step _ _ _ _ Hq).
  rewrite (processEvent_remove _ _ _ Ha). cbn zeta.
  rewrite (deleteCustomerProductListItem_ok o lists updated (item event)
             (listId event) (dequeued remaining st) v w Hd Hs He Hu).
  reflexivity.
Qed.

Lemma drain_after_mistyped_remove o lists event remaining st v w :
  eventQueue st = event :: remaining ->
  action event = eventActions.REMOVE ->
  data o = Some lists ->
  let delete :=
    DeleteCustomerProductListItem (ei_id (item event)) (listId event)
                                  customerId in
  let left :=
    if overlapping st then skipn (taken w) remaining else remaining in
  serve (world st) delete = (Resolved v, w) ->
  isError v = false ->
  map_or_throw (remove_item (ei_id (item event)) (listId event)) lists
  = None ->
  processEventQueue (Some o) st
  = after (Call delete (Resolved v) :: error_report event)
      (processEventQueue (Some o)
         (mkState left (context st) (isLoading st) w (overlapping st))).
Proof.
  intros Hq Ha Hd delete left Hs He Hu. subst delete left.
  rewrite (drain_step _ _ _ _ Hq).
  rewrite (processEvent_remove _ _ _ Ha). cbn zeta.
  rewrite (deleteCustomerProductListItem_mistyped o lists (item event)
             (listId event) (dequeued remaining st) v w Hd Hs He Hu).
  reflexivity.
Qed.

Lemma processEventQueue_empty cpl st :
  eventQueue st = [] ->
  processEventQueue cpl st = mkRun (Returned tt) st [].
Proof. intros Hq. unfold processEventQueue. now rewrite Hq. Qed.

(** X1: a queued remove whose delete request succeeds calls the success
    callback, if any, without arguments, writes the locally edited
    snapshot, and, unlike a successful add, lets the drain go on with the
    actions left in the queue (those remaining, less what another drain
    took during the wait). *)
Theorem queued_remove_deletes_and_drain_continues
    o lists updated event remaining st v w :
  eventQueue st = event :: remaining ->
  action event = eventActions.REMOVE ->
  data o = Some lists ->
  let delete :=
    DeleteCustomerProductListItem (ei_id (item event)) (listId event)
                                  customerId in
  let left :=
    if overlapping st then skipn (taken w) remaining else remaining in
  serve (world st) delete = (Resolved v, w) ->
  isError v = false ->
  map_or_throw (remove_item (ei_id (item event)) (listId event)) lists
  = Some updated ->
  processEventQueue (Some o) st
  = after (Call delete (Resolved v)
           :: match onSuccess event with
              | Some f => [OnSuccess f None]
              | None => []
              end)
      (processEventQueue (Some o)
         (mkState left (Some (mkObj (Some updated) (rest o)))
            (isLoading st) w true)).
Proof.
  intros Hq Ha Hd delete left Hs He Hu.
  exact (drain_after_successful_remove o lists updated event remaining st
           v w Hq Ha Hd Hs He Hu).
Qed.

(** X2: a queued event whose action is neither ['add'] nor ['remove']
    is taken off the queue and dropped: nothing is requested, neither
    callback is invoked, and the drain goes on. *)
Theorem queued_action_of_unknown_kind_is_dropped cpl event remaining st :
  eventQueue st = event :: remaining ->
  action event <> eventActions.ADD ->
  action event <> eventActions.REMOVE ->
  processEventQueue cpl st
  = processEventQueue cpl (dequeued remaining st).
Proof.
  intros Hq Ha Hr. rewrite (drain_step _ _ _ _ Hq).
  rewrite (processEvent_other _ _ _ Ha Hr). cbn. apply after_nil.
Qed.

(** X3: a queued add that finds no wish list in the snapshot (the
    snapshot is undefined, has no [data], or holds no list of the wish-list
    type) issues no request; the error callback, if any, is invoked and the
    drain goes on. *)
Theorem queued_add_without_wishlist_reports_error
    cpl event remaining st :
  eventQueue st = event :: remaining ->
  action event = eventActions.ADD ->
  (forall o lists,
     cpl = Some o -> data o = Some lists ->
     find (fun list => pl_type list =? WISHLIST) lists = None) ->
  processEventQueue cpl st
  = after (match onError event with
           | Some f => [OnError f]
           | None => []
           end)
      (processEventQueue cpl (dequeued remaining st)).
Proof.
  intros Hq Ha Hnone. rewrite (drain_step _ _ _ _ Hq).
  rewrite (processEvent_no_wishlist _ _ _ Ha Hnone). reflexivity.
Qed.

(** X18: a queued add on a wish list that has no
    [customerProductListItems] (an empty wish list as the API returns it)
    never gets to a request: reading [find] off the missing array throws,
    the error callback, if any, is invoked, and the drain goes on. *)
Theorem queued_add_on_wishlist_without_items_reports_error
    o lists wishlist event remaining st :
  eventQueue st = event :: remaining ->
  action event = eventActions.ADD ->
  data o = Some lists ->
  find (fun list => pl_type list =? WISHLIST) lists = Some wishlist ->
  customerProductListItems wishlist = None ->
  processEventQueue (Some o) st
  = after (match onError event with
           | Some f => [OnError f]
           | None => []
           end)
      (processEventQueue (Some o) (dequeued remaining st)).
Proof.
  intros Hq Ha Hd Hw Hl. rewrite (drain_step _ _ _ _ Hq).
  rewrite (processEvent_no_items _ _ _ _ _ Ha Hd Hw Hl). reflexivity.
Qed.

Lemma try_catch_returns {A} (m : M A) (handler : Exn -> M A) :
  (forall e st, exists a, outcome (handler e st) = Returned a) ->
  forall st, exists a, outcome (try_catch m handler st) = Returned a.
Proof.
  intros Hh st. unfold try_catch.
  destruct (m st) as [[a|e] st1 t1]; cbn; [eauto|].
  destruct (Hh e st1) as [a Ha].
  destruct (handler e st1) as [out st2 t2]. cbn in *. eauto.
Qed.

Lemma processEvent_returns cpl event st :
  exists ctl, outcome (processEvent cpl event st) = Returned ctl.
Proof.
  assert (Hh : forall (e : Exn) (st' : State),
             exists a,
               outcome ((optional_call (onError event) OnError ;;
                         ret Continue) st') = Returned a).
  { intros e st'. destruct (onError event); cbn; eauto. }
  unfold processEvent.
  destruct (action event =? eventActions.ADD).
  - apply try_catch_returns. exact Hh.
  - destruct (action event =? eventActions.REMOVE).
    + apply try_catch_returns. exact Hh.
    + cbn. eauto.
Qed.

Lemma drain_never_throws cpl turns :
  forall st, outcome (drain turns cpl st) = Returned tt.
Proof.
  induction turns as [|turns IH]; intros st; [reflexivity|].
  destruct (eventQueue st) as [|event remaining] eqn:Hq.
  - cbn. now rewrite Hq.
  - rewrite (drain_cons _ _ _ _ _ Hq). cbn zeta.
    destruct (processEvent_returns cpl event (dequeued remaining st))
      as [ctl Hctl].
    specialize
      (IH (final (processEvent cpl event (dequeued remaining st)))).
    destruct (processEvent cpl event (dequeued remaining st))
      as [out fin eff].
    cbn in *. subst out. destruct ctl; [|reflexivity].
    destruct (drain turns cpl fin). cbn in *. assumption.
Qed.

(** X4: the drain never throws, whatever the queue holds and whatever
    the server answers: every failure ends in the action's error handler. *)
Theorem processEventQueue_never_throws cpl st :
  outcome (processEventQueue cpl st) = Returned tt.
Proof. apply drain_never_throws. Qed.

(** X8: two removes drained one after the other, with no other drain
    under way when the first begins, both compute their local edit from the
    snapshot the drain closed over, so the snapshot left by the second one
    undoes the edit of the first: it is the closed-over snapshot without the
    second item only, and every other item of it, the first removed one
    included, is back. *)
Theorem second_remove_overwrites_first_local_edit
    o lists lists' first second st v1 w1 v2 w2 :
  eventQueue st = [first; second] ->
  overlapping st = false ->
  action first = eventActions.REMOVE ->
  action second = eventActions.REMOVE ->
  data o = Some lists ->
  serve (world st) (delete_request first) = (Resolved v1, w1) ->
  isError v1 = false ->
  serve w1 (delete_request second) = (Resolved v2, w2) ->
  isError v2 = false ->
  map_or_throw (remove_item (ei_id (item second)) (listId second)) lists
  = Some lists' ->
  context (final (processEventQueue (Some o) st))
  = Some (mkObj (Some lists') (rest o))
  /\ forall list items x,
      In list lists ->
      customerProductListItems list = Some items ->
      In x items ->
      pli_id x <> ei_id (item second) ->
      exists list' items',
        In list' lists'
        /\ customerProductListItems list' = Some items'
        /\ In x items'.
Proof.
  intros Hq Hov Ha1 Ha2 Hd Hs1 He1 Hs2 He2 Hu. split.
  - assert (Hsecond :
      forall ctx loading flag,
        context (final (processEventQueue (Some o)
                          (mkState [second] ctx loading w1 flag)))
        = Some (mkObj (Some lists') (rest o))).
    { intros ctx loading flag.
      rewrite (drain_after_successful_remove o lists lists' second []
                 (mkState [second] ctx loading w1 flag) v2 w2
                 eq_refl Ha2 Hd Hs2 He2 Hu).
      cbn [world overlapping isLoading].
      rewrite processEventQueue_empty.
      - destruct (onSuccess second); reflexivity.
      - cbn. destruct flag; [apply skipn_nil | reflexivity]. }
    destruct (map_or_throw
                (remove_item (ei_id (item first)) (listId first)) lists)
      as [updated|] eqn:Hu1.
    + rewrite (drain_after_successful_remove o lists updated first
                 [second] st v1 w1 Hq Ha1 Hd Hs1 He1 Hu1).
      rewrite Hov.
      destruct (processEventQueue (Some o) _) as [out fin eff] eqn:Hrun.
      cbn. change fin with (final (mkRun out fin eff)).
      rewrite <- Hrun. apply Hsecond.
    + rewrite (drain_after_mistyped_remove o lists first [second] st
                 v1 w1 Hq Ha1 Hd Hs1 He1 Hu1).
      rewrite Hov.
      destruct (processEventQueue (Some o) _) as [out fin eff] eqn:Hrun.
      cbn. change fin with (final (mkRun out fin eff)).
      rewrite <- Hrun. apply Hsecond.
  - intros list items x Hl Hitems Hx Hne.
    destruct (In_nth_error _ _ Hl) as [n Hn].
    destruct (map_or_throw_nth _ _ _ _ _ Hu Hn) as [list' [Hr Hn']].
    apply nth_error_In in Hn'.
    unfold remove_item in Hr. rewrite Hitems in Hr.
    destruct (id_is (pl_id list) (listId second)).
    + inversion Hr; subst list'. eexists. eexists.
      split; [eassumption|]. split; [reflexivity|].
      apply filter_In. split; [assumption|].
      apply negb_true_iff. now apply String.eqb_neq.
    + inversion Hr; subst list'. eauto.
Qed.

(** *** The requests of a drain *)

(** Runs every API call and [isError] test of the goal both ways. *)
Ltac run_server :=
  repeat (cbn;
          match goal with
          | |- context [serve ?w ?r] =>
              let E := fresh "E" in
              destruct (serve w r) as [[?|] ?] eqn:E
          | |- context [isError ?v] =>
              let E := fresh "E" in destruct (isError v) eqn:E
          end);
  cbn.

Lemma requests_app t1 t2 : requests (t1 ++ t2) = requests t1 ++ requests t2.
Proof. apply flat_map_app. Qed.

Lemma updateCustomerProductListItem_mutations body lid iid st :
  filter is_mutation
    (requests (effects (updateCustomerProductListItem body lid iid st)))
  = [UpdateCustomerProductListItem body customerId lid iid].
Proof.
  unfold updateCustomerProductListItem, getCustomerProductLists.
  unfold_monad. run_server; reflexivity.
Qed.

Lemma createCustomerProductListItem_mutations body lid st :
  filter is_mutation
    (requests (effects (createCustomerProductListItem body lid st)))
  = [CreateCustomerProductListItem body customerId lid].
Proof.
  unfold createCustomerProductListItem, getCustomerProductLists.
  unfold_monad. run_server; reflexivity.
Qed.

Lemma deleteCustomerProductListItem_requests cpl it lid st :
  requests (effects (deleteCustomerProductListItem cpl it lid st))
  = [DeleteCustomerProductListItem (ei_id it) lid customerId].
Proof.
  unfold deleteCustomerProductListItem, bind, api.
  destruct (serve (world st) _) as [[v|] w]; cbn; [|reflexivity].
  destruct (isError v); cbn; [reflexivity|].
  destruct cpl as [o|]; [destruct (data o) as [lists|]|]; try reflexivity.
  now destruct (map_or_throw _ lists).
Qed.

Lemma error_report_requests event : requests (error_report event) = [].
Proof. unfold error_report. now destruct (onError event). Qed.

Lemma processEvent_mutations cpl event st :
  filter is_mutation (requests (effects (processEvent cpl event st)))
  = planned_request cpl event.
Proof.
  unfold planned_request.
  destruct (String.eqb_spec (action event) eventActions.ADD) as [Ha|Ha].
  - destruct cpl as [[[lists|] f]|].
    + destruct (find (fun list => pl_type list =? WISHLIST) lists)
        as [wishlist|] eqn:Hw.
      * destruct (customerProductListItems wishlist) as [items|] eqn:Hl.
        -- destruct (find (fun i => pli_productId i =? ei_id (item event))
                          items)
             as [existing|] eqn:Hi.
           ++ rewrite (processEvent_existing (mkObj (Some lists) f) lists
                         wishlist items existing event st Ha eq_refl Hw Hl
                         Hi).
              cbn zeta. unfold updateItemToWishlist.
              pose proof (updateCustomerProductListItem_mutations
                            (mkBody (ei_id (item event)) 1
                               (pli_quantity existing
                                + ei_quantity (item event)) false "product")
                            (pl_id wishlist) (pli_id existing) st) as Hm.
              destruct (updateCustomerProductListItem _ _ _ st)
                as [[v|e] fin eff]; cbn [effects outcome final] in *.
              ** destruct (onSuccess event); cbn [effects];
                   rewrite requests_app, filter_app, Hm;
                   [reflexivity | now rewrite error_report_requests].
              ** destruct (onSuccess event); cbn [effects];
                   now rewrite requests_app, filter_app, Hm,
                     error_report_requests.
           ++ rewrite (processEvent_absent (mkObj (Some lists) f) lists
                         wishlist items event st Ha eq_refl Hw Hl Hi).
              cbn zeta. unfold addItemToWishlist.
              pose proof (createCustomerProductListItem_mutations
                            (mkBody (ei_id (item event)) 1
                               (ei_quantity (item event)) false "product")
                            (pl_id wishlist) st) as Hm.
              destruct (createCustomerProductListItem _ _ st)
                as [[v|e] fin eff]; cbn [effects outcome final] in *.
              ** rewrite requests_app, filter_app, Hm.
                 now destruct (onSuccess event).
              ** now rewrite requests_app, filter_app, Hm,
                   error_report_requests.
        -- rewrite (processEvent_no_items (mkObj (Some lists) f) lists
                      wishlist event st Ha eq_refl Hw Hl).
           cbn. now rewrite error_report_requests.
      * rewrite processEvent_no_wishlist; [|assumption|].
        -- cbn. now rewrite error_report_requests.
        -- intros o lists' Ho Hd. inversion Ho; subst o. cbn in Hd.
           inversion Hd; subst lists'. assumption.
    + rewrite processEvent_no_wishlist; [|assumption|].
      * cbn. now rewrite error_report_requests.
      * intros o lists' Ho Hd. inversion Ho; subst o. discriminate Hd.
    + rewrite processEvent_no_wishlist; [|assumption|].
      * cbn. now rewrite error_report_requests.
      * intros o lists' Ho. discriminate Ho.
  - destruct (String.eqb_spec (action event) eventActions.REMOVE)
      as [Hr|Hr].
    + rewrite (processEvent_remove _ _ _ Hr). cbn zeta.
      pose proof (deleteCustomerProductListItem_requests cpl (item event)
                    (listId event) st) as Hm.
      destruct (deleteCustomerProductListItem _ _ _ st)
        as [[v|e] fin eff]; cbn [effects outcome final] in *.
      * rewrite requests_app, filter_app, Hm.
        now destruct (onSuccess event).
      * now rewrite requests_app, filter_app, Hm, error_report_requests.
    + now rewrite (processEvent_other _ _ _ Ha Hr).
Qed.

Lemma in_order_skipn {A} (picked : list A) k :
  forall l, in_order picked (skipn k l) -> in_order picked l.
Proof.
  induction k as [|k IH]; intros l H; [assumption|].
  destruct l as [|x l]; [assumption|].
  apply in_order_skip. now apply IH.
Qed.

Lemma in_order_all {A} (l : list A) : in_order l l.
Proof. induction l; now constructor. Qed.

Lemma drain_in_queue_order cpl turns :
  forall st,
    exists processed,
      in_order processed (eventQueue st)
      /\ filter is_mutation (requests (effects (drain turns cpl st)))
         = flat_map (planned_request cpl) processed.
Proof.
  induction turns as [|turns IH]; intros st.
  - exists []. split; [constructor | reflexivity].
  - destruct (eventQueue st) as [|event remaining] eqn:Hq.
    + exists []. split; [constructor|]. cbn. now rewrite Hq.
    + rewrite (drain_cons _ _ _ _ _ Hq). cbn zeta.
      pose proof (processEvent_mutations cpl event (dequeued remaining st))
        as Hm.
      destruct (processEvent_drops cpl event (dequeued remaining st))
        as [k Hk].
      destruct (processEvent_returns cpl event (dequeued remaining st))
        as [ctl Hctl].
      destruct (processEvent cpl event (dequeued remaining st))
        as [out fin eff].
      cbn [outcome final effects eventQueue dequeued] in *. subst out.
      destruct ctl.
      * destruct (IH fin) as [processed [Hin Hreq]].
        exists (event :: processed). split.
        -- apply in_order_take. apply (in_order_skipn _ k).
           now rewrite <- Hk.
        -- destruct (drain turns cpl fin) as [out2 fin2 eff2].
           cbn [outcome final effects after flat_map] in *.
           now rewrite requests_app, filter_app, Hm, Hreq.
      * exists [event]. split.
        -- apply in_order_take. constructor.
        -- cbn [effects flat_map]. now rewrite app_nil_r.
Qed.

(** X5: whatever the server answers and whatever another drain takes off
    the queue meanwhile, the actions one drain processes are actions of the
    queue in queue order, and the create, update and delete requests it
    issues are, in that order, exactly those planned for the actions it
    processes from the snapshot the drain closed over. *)
Theorem drain_issues_planned_requests_in_queue_order cpl st :
  exists processed,
    in_order processed (eventQueue st)
    /\ filter is_mutation (requests (effects (processEventQueue cpl st)))
       = flat_map (planned_request cpl) processed.
Proof. apply drain_in_queue_order. Qed.

Lemma processEvent_of_remove_continues cpl event st :
  action event = eventActions.REMOVE ->
  outcome (processEvent cpl event st) = Returned Continue
  /\ requests (effects (processEvent cpl event st)) = [delete_request event].
Proof.
  intros Ha. rewrite (processEvent_remove _ _ _ Ha). cbn zeta.
  pose proof (deleteCustomerProductListItem_requests cpl (item event)
                (listId event) st) as Hm.
  destruct (deleteCustomerProductListItem _ _ _ st) as [[v|e] fin eff];
    cbn [effects outcome final] in *; (split; [reflexivity|]);
    rewrite requests_app, Hm;
    [destruct (onSuccess event) | rewrite error_report_requests];
    reflexivity.
Qed.

Lemma drain_of_removes cpl turns :
  forall st,
    (length (eventQueue st) <= turns)%nat ->
    (forall event, In event (eventQueue st) ->
                   action event = eventActions.REMOVE) ->
    eventQueue (final (drain turns cpl st)) = []
    /\ (exists processed,
          in_order processed (eventQueue st)
          /\ requests (effects (drain turns cpl st))
             = map delete_request processed)
    /\ ((forall w, taken w = 0%nat) ->
        requests (effects (drain turns cpl st))
        = map delete_request (eventQueue st)).
Proof.
  induction turns as [|turns IH]; intros st Hlen Hall.
  - destruct (eventQueue st) eqn:Hq; [|cbn in Hlen; lia].
    cbn. rewrite Hq. split; [reflexivity|]. split; [|reflexivity].
    exists []. split; [constructor | reflexivity].
  - destruct (eventQueue st) as [|event remaining] eqn:Hq.
    + cbn. rewrite Hq. split; [assumption|]. split; [|reflexivity].
      exists []. split; [constructor | reflexivity].
    + rewrite (drain_cons _ _ _ _ _ Hq). cbn zeta.
      destruct (processEvent_of_remove_continues cpl event
                  (dequeued remaining st) (Hall event (or_introl eq_refl)))
        as [Hout Hreq].
      destruct (processEvent_drops cpl event (dequeued remaining st))
        as [k Hk].
      assert (Hkeep : (forall w, taken w = 0%nat) ->
                eventQueue (final (processEvent cpl event
                                     (dequeued remaining st)))
                = remaining).
      { intros Hnone.
        rewrite (processEvent_remove _ _ _
                   (Hall event (or_introl eq_refl))).
        cbn zeta. unfold deleteCustomerProductListItem, bind, api, settled.
        cbn. destruct (serve (world st) _) as [[v|] w]; cbn;
          rewrite ?Hnone; cbn.
        - destruct (isError v); cbn.
          + now destruct (overlapping st).
          + destruct cpl as [o|]; [destruct (data o) as [lists|]|]; cbn;
              try (now destruct (overlapping st)).
            destruct (map_or_throw _ lists); cbn;
              now destruct (overlapping st).
        - now destruct (overlapping st). }
      destruct (processEvent cpl event (dequeued remaining st))
        as [out fin eff].
      cbn [outcome final effects eventQueue dequeued] in *. subst out.
      pose proof (skipn_no_longer k remaining) as Hshort.
      destruct (IH fin) as [Hempty [[processed [Hin Hsome]] Hevery]].
      * rewrite Hk. cbn in Hlen. lia.
      * intros e He. apply Hall. right. rewrite Hk in He.
        revert He. clear. revert remaining.
        induction k as [|k IHk]; intros remaining He; [assumption|].
        destruct remaining as [|x remaining]; [assumption|].
        right. now apply IHk.
      * destruct (drain turns cpl fin) as [out2 fin2 eff2].
        cbn [outcome final effects after] in *.
        split; [assumption|]. split.
        -- exists (event :: processed). split.
           ++ apply in_order_take. apply (in_order_skipn _ k).
              now rewrite <- Hk.
           ++ now rewrite requests_app, Hreq, Hsome.
        -- intros Hnone. rewrite requests_app, Hreq, (Hevery Hnone).
           now rewrite (Hkeep Hnone).
Qed.

(** X6: a queue that holds only removes is empty when the drain returns;
    the drain never fetches the lists, and what it requests is one delete
    for each action it processes, which are actions of the queue in queue
    order.  When no other drain takes actions off the queue it processes
    them all: one delete per queued action, in queue order. *)
Theorem queue_of_removes_is_drained_in_order cpl st :
  (forall event,
     In event (eventQueue st) -> action event = eventActions.REMOVE) ->
  let r := processEventQueue cpl st in
  eventQueue (final r) = []
  /\ (exists processed,
        in_order processed (eventQueue st)
        /\ requests (effects r) = map delete_request processed)
  /\ ((forall w, taken w = 0%nat) ->
      requests (effects r) = map delete_request (eventQueue st)).
Proof.
  intros Hall. cbv zeta. unfold processEventQueue.
  apply drain_of_removes; [apply Nat.le_refl | assumption].
Qed.

(** *** Failure and the loader *)

Ltac store_cases :=
  unfold_monad; intros st ?; run_server; intros Hout;
  try discriminate Hout; try reflexivity.

(** X9: a store method that throws, for an error-shaped response, a
    rejected call or a missing snapshot, leaves the snapshot in the context
    exactly as it was. *)
Theorem failed_store_method_keeps_snapshot :
  forall type body lid iid cpl it olid,
    keeps_snapshot_on_throw (createCustomerProductList type)
    /\ keeps_snapshot_on_throw (createCustomerProductListItem body lid)
    /\ keeps_snapshot_on_throw (updateCustomerProductListItem body lid iid)
    /\ keeps_snapshot_on_throw getCustomerProductLists
    /\ keeps_snapshot_on_throw (fetchOrCreateProductLists type)
    /\ keeps_snapshot_on_throw (deleteCustomerProductListItem cpl it olid).
Proof.
  intros. unfold keeps_snapshot_on_throw.
  split; [|split; [|split; [|split; [|split]]]].
  - unfold createCustomerProductList, getCustomerProductLists. store_cases.
  - unfold createCustomerProductListItem, getCustomerProductLists.
    store_cases.
  - unfold updateCustomerProductListItem, getCustomerProductLists.
    store_cases.
  - unfold getCustomerProductLists. store_cases.
  - unfold fetchOrCreateProductLists, getCustomerProductLists.
    unfold_monad. intros st e. cbn.
    destruct (serve (world st) (GetCustomerProductLists customerId))
      as [[v|] w]; cbn; [|reflexivity].
    destruct (isError v); cbn; [reflexivity|].
    destruct (has_list_of_type v type); cbn; [discriminate|].
    run_server; intros Hout; try discriminate Hout; reflexivity.
  - unfold deleteCustomerProductListItem. unfold_monad. intros st e. cbn.
    destruct (serve (world st) _) as [[v|] w]; cbn; [|reflexivity].
    destruct (isError v); cbn; [reflexivity|].
    destruct cpl as [o|]; [destruct (data o) as [lists|]|]; cbn;
      try (intros Hout; reflexivity).
    destruct (map_or_throw _ lists); cbn;
      intros Hout; try discriminate Hout; reflexivity.
Qed.

(** X10: each of the five methods that switch the loader on has switched
    it off again whenever it returns normally. *)
Theorem returning_store_method_clears_loader :
  forall type body lid iid,
    clears_loader (createCustomerProductList type)
    /\ clears_loader (createCustomerProductListItem body lid)
    /\ clears_loader (updateCustomerProductListItem body lid iid)
    /\ clears_loader getCustomerProductLists
    /\ clears_loader (fetchOrCreateProductLists type).
Proof.
  intros. unfold clears_loader.
  split; [|split; [|split; [|split]]].
  - unfold createCustomerProductList, getCustomerProductLists. store_cases.
  - unfold createCustomerProductListItem, getCustomerProductLists.
    store_cases.
  - unfold updateCustomerProductListItem, getCustomerProductLists.
    store_cases.
  - unfold getCustomerProductLists. store_cases.
  - unfold fetchOrCreateProductLists, getCustomerProductLists.
    unfold_monad. intros st a. cbn.
    destruct (serve (world st) (GetCustomerProductLists customerId))
      as [[v|] w]; cbn; [|discriminate].
    destruct (isError v); cbn; [discriminate|].
    destruct (has_list_of_type v type); cbn; [reflexivity|].
    run_server; intros Hout; try discriminate Hout; reflexivity.
Qed.

(** X11: when the first API call of a method is rejected, the method
    throws that rejection and the loader it switched on stays on. *)
Theorem rejected_call_leaves_loader_on st w type body lid iid :
  let stuck {A} (r : Run World A) :=
    outcome r = Thrown Rejection /\ isLoading (final r) = true in
  (serve (world st) (GetCustomerProductLists customerId) = (Rejected, w) ->
   stuck (getCustomerProductLists st)
   /\ stuck (fetchOrCreateProductLists type st))
  /\ (serve (world st) (CreateCustomerProductList type customerId)
      = (Rejected, w) ->
      stuck (createCustomerProductList type st))
  /\ (serve (world st) (CreateCustomerProductListItem body customerId lid)
      = (Rejected, w) ->
      stuck (createCustomerProductListItem body lid st))
  /\ (serve (world st)
        (UpdateCustomerProductListItem body customerId lid iid)
      = (Rejected, w) ->
      stuck (updateCustomerProductListItem body lid iid st)).
Proof.
  cbv zeta.
  unfold getCustomerProductLists, fetchOrCreateProductLists,
    createCustomerProductList, createCustomerProductListItem,
    updateCustomerProductListItem.
  unfold_monad. cbn.
  repeat split; match goal with H : serve _ _ = _ |- _ => now rewrite H end.
Qed.

(** X12: on an error-shaped answer to their first request,
    [getCustomerProductLists], [fetchOrCreateProductLists],
    [createCustomerProductListItem] and [updateCustomerProductListItem]
    switch the loader off before they throw, whereas
    [createCustomerProductList] switches it on again and throws with the
    loader on. *)
Theorem error_response_and_the_loader st v w type body lid iid :
  isError v = true ->
  (serve (world st) (GetCustomerProductLists customerId) = (Resolved v, w) ->
   isLoading (final (getCustomerProductLists st)) = false
   /\ isLoading (final (fetchOrCreateProductLists type st)) = false)
  /\ (serve (world st) (CreateCustomerProductListItem body customerId lid)
      = (Resolved v, w) ->
      isLoading (final (createCustomerProductListItem body lid st)) = false)
  /\ (serve (world st)
        (UpdateCustomerProductListItem body customerId lid iid)
      = (Resolved v, w) ->
      isLoading (final (updateCustomerProductListItem body lid iid st))
      = false)
  /\ (serve (world st) (CreateCustomerProductList type customerId)
      = (Resolved v, w) ->
      outcome (createCustomerProductList type st) = Thrown (ErrorOf v)
      /\ isLoading (final (createCustomerProductList type st)) = true).
Proof.
  intros He.
  unfold getCustomerProductLists, fetchOrCreateProductLists,
    createCustomerProductList, createCustomerProductListItem,
    updateCustomerProductListItem.
  unfold_monad. cbn.
  repeat split; intros;
    match goal with H : serve _ _ = _ |- _ => rewrite H end;
    cbn; now rewrite He.
Qed.

(** X13: a create-list, create-item or update-item request that
    succeeds is followed by one fetch of the lists; the fetched response,
    not the mutation's, becomes the snapshot, and the method returns the
    mutation's own response with the loader off. *)
Theorem successful_mutation_refetches_and_returns_own_response
    st v1 w1 v2 w2 type body lid iid :
  isError v1 = false ->
  serve w1 (GetCustomerProductLists customerId) = (Resolved v2, w2) ->
  isError v2 = false ->
  let done {A} (mutation : Request) (r : Run World A) (a : A) :=
    outcome r = Returned a
    /\ context (final r) = v2
    /\ isLoading (final r) = false
    /\ requests (effects r)
       = [mutation; GetCustomerProductLists customerId] in
  (serve (world st) (CreateCustomerProductList type customerId)
   = (Resolved v1, w1) ->
   done (CreateCustomerProductList type customerId)
        (createCustomerProductList type st) v1)
  /\ (serve (world st) (CreateCustomerProductListItem body customerId lid)
      = (Resolved v1, w1) ->
      done (CreateCustomerProductListItem body customerId lid)
           (createCustomerProductListItem body lid st) v1)
  /\ (serve (world st)
        (UpdateCustomerProductListItem body customerId lid iid)
      = (Resolved v1, w1) ->
      done (UpdateCustomerProductListItem body customerId lid iid)
           (updateCustomerProductListItem body lid iid st) v1).
Proof.
  intros He1 Hs2 He2. cbv zeta.
  unfold createCustomerProductList, createCustomerProductListItem,
    updateCustomerProductListItem, getCustomerProductLists.
  unfold_monad. cbn.
  repeat split;
    match goal with H : serve (world st) _ = _ |- _ => rewrite H end;
    cbn; rewrite He1; cbn; rewrite Hs2; cbn; now rewrite He2.
Qed.

(** X14: after [clearProductLists] the snapshot is an object without
    [data]: [loaded] is false, and an effect run that finds actions in the
    queue throws a [TypeError] on [data.length] instead of idling; the queue
    is left as it was and nothing is requested. *)
Theorem effect_on_cleared_snapshot_throws st :
  eventQueue st <> [] ->
  let cleared := final (clearProductLists st) in
  let r := useEffect (context cleared) cleared in
  loaded (context cleared) = false
  /\ outcome r = Thrown TypeError
  /\ final r = cleared
  /\ effects r = [].
Proof.
  intros Hq. cbv zeta. unfold useEffect, effect_guard, bind. cbn.
  destruct (eventQueue st); [congruence|]. cbn. auto.
Qed.

End Hook.

(** ** The properties on the sample data *)

Lemma store_methods_raise_on_error_response_witness :
  outcome (getCustomerProductLists Sample.failing Sample.idle Sample.isError
             Sample.customerId (Sample.start [] tt))
  = Thrown (ErrorOf (Some Sample.fault)).
Proof.
  destruct (store_methods_raise_on_error_response Sample.failing
              Sample.idle Sample.isError Sample.customerId "wish_list"
              (mkBody "p1" 1 2 false "product") "l1" "i1" None
              (mkEventItem "i1" 0) None)
    as (_ & _ & _ & H & _).
  apply (H (Sample.start [] tt) Sample.fetch (Some Sample.fault)).
  - left. reflexivity.
  - reflexivity.
Defined.

Lemma delete_filters_item_and_does_not_refetch_witness :
  let r := deleteCustomerProductListItem Sample.steady Sample.idle
             Sample.isError Sample.customerId (Some Sample.lists)
             (mkEventItem "i1" 0) (Some "l1") (Sample.start [] tt) in
  requests (effects r) = [Sample.deleteI1]
  /\ filter is_refetch (effects r) = []
  /\ exists lists' list',
      context (final r) = Some (mkObj (Some lists') [("total", "2")])
      /\ nth_error lists' 0 = Some list'
      /\ pl_id list' = "l1"
      /\ customerProductListItems list' = Some [].
Proof.
  destruct (delete_filters_item_and_does_not_refetch Sample.steady
              Sample.idle Sample.isError Sample.customerId Sample.lists
              [Sample.l1; Sample.l2] (mkEventItem "i1" 0) (Some "l1")
              (Sample.start [] tt) (Some Sample.lists) tt
              eq_refl eq_refl eq_refl)
    as (_ & Hreq & Hno & lists' & Hctx & Hedit).
  - intros list [<- | [<- | []]]; discriminate.
  - split; [exact Hreq|]. split; [exact Hno|].
    destruct (Hedit 0%nat Sample.l1 [Sample.i1] eq_refl eq_refl eq_refl)
      as (list' & kept & Hn & Hid & _ & _ & Hitems & Hkept & _).
    exists lists', list'.
    split; [exact Hctx|]. split; [exact Hn|]. split; [exact Hid|].
    rewrite Hitems, Hkept. reflexivity.
Defined.

Lemma delete_leaves_other_lists_and_fields_witness :
  exists o' lists',
    context (final (deleteCustomerProductListItem Sample.steady Sample.idle
                      Sample.isError Sample.customerId (Some Sample.lists)
                      (mkEventItem "i1" 0) (Some "l1")
                      (Sample.start [] tt)))
    = Some o'
    /\ rest o' = [("total", "2")]
    /\ data o' = Some lists'
    /\ nth_error lists' 1 = Some Sample.l2.
Proof.
  destruct (delete_leaves_other_lists_and_fields Sample.steady Sample.idle
              Sample.isError Sample.customerId Sample.lists
              [Sample.l1; Sample.l2] (mkEventItem "i1" 0) (Some "l1")
              (Sample.start [] tt) (Some Sample.lists) tt
              eq_refl eq_refl eq_refl)
    as [Hedit _].
  destruct Hedit as (o' & lists' & Hc & Hr & Hd & _ & Hother).
  - intros list [<- | [<- | []]]; discriminate.
  - exists o', lists'. repeat split; try assumption.
    apply (Hother 1%nat Sample.l2); reflexivity.
Defined.

Lemma fetchOrCreateProductLists_fetches_then_creates_witness :
  effects (fetchOrCreateProductLists Sample.steady Sample.idle
             Sample.isError Sample.customerId Sample.WISHLIST
             (Sample.start [] tt))
  = [Call Sample.fetch (Resolved (Some Sample.lists))]
  /\ exists res more,
      effects (fetchOrCreateProductLists Sample.scripted (fun _ => 0%nat)
                 Sample.isError Sample.customerId Sample.WISHLIST
                 (Sample.start []
                    [Resolved (Some (mkObj (Some [Sample.l2]) []));
                     Resolved None; Resolved (Some Sample.lists)]))
      = Call Sample.fetch (Resolved (Some (mkObj (Some [Sample.l2]) [])))
        :: Call (CreateCustomerProductList Sample.WISHLIST Sample.customerId)
                res
        :: more.
Proof.
  split.
  - destruct (fetchOrCreateProductLists_fetches_then_creates Sample.steady
                Sample.idle Sample.isError Sample.customerId
                Sample.WISHLIST (Sample.start [] tt) (Some Sample.lists) tt
                eq_refl eq_refl)
      as [Hmatch _].
    apply Hmatch.
    exists Sample.lists, [Sample.l1; Sample.l2], Sample.l1.
    repeat split. left. reflexivity.
  - destruct (fetchOrCreateProductLists_fetches_then_creates Sample.scripted
                (fun _ => 0%nat) Sample.isError Sample.customerId
                Sample.WISHLIST
                (Sample.start []
                   [Resolved (Some (mkObj (Some [Sample.l2]) []));
                    Resolved None; Resolved (Some Sample.lists)])
                (Some (mkObj (Some [Sample.l2]) []))
                [Resolved None; Resolved (Some Sample.lists)]
                eq_refl eq_refl)
      as [_ Hcreate].
    destruct Hcreate as [res [more [Heff _]]].
    + intros [o [lists [list [Ho [Hd [Hin Ht]]]]]].
      inversion Ho; subst o. inversion Hd; subst lists.
      destruct Hin as [<- | []]. discriminate Ht.
    + exists res, more. exact Heff.
Defined.

Lemma drain_only_when_queue_and_lists_nonempty_witness :
  useEffect Sample.steady Sample.idle Sample.isError Sample.WISHLIST
    Sample.customerId (Some Sample.lists)
    (Sample.start [Sample.removeI1] tt)
  = processEventQueue Sample.steady Sample.idle Sample.isError
      Sample.WISHLIST Sample.customerId (Some Sample.lists)
      (Sample.start [Sample.removeI1] tt).
Proof.
  destruct (drain_only_when_queue_and_lists_nonempty Sample.steady
              Sample.idle Sample.isError Sample.WISHLIST Sample.customerId
              (Some Sample.lists) (Sample.start [Sample.removeI1] tt))
    as (_ & Hfire & _).
  apply Hfire. split.
  - discriminate.
  - exists Sample.lists, [Sample.l1; Sample.l2].
    repeat split. discriminate.
Defined.

Lemma queued_add_of_existing_product_updates_quantity_witness :
  effects (processEventQueue Sample.steady Sample.idle Sample.isError
             Sample.WISHLIST Sample.customerId (Some Sample.lists)
             (Sample.start [Sample.addP1] tt))
  = [Log (mkBody "p1" 1 5 false "product");
     Call Sample.update5 (Resolved (Some Sample.lists));
     Call Sample.fetch (Resolved (Some Sample.lists));
     OnSuccess "added" (Some 2%Z)].
Proof.
  destruct (queued_add_of_existing_product_updates_quantity Sample.steady
              Sample.idle Sample.isError Sample.WISHLIST Sample.customerId
              Sample.lists [Sample.l1; Sample.l2] Sample.l1 [Sample.i1]
              Sample.i1 Sample.addP1 [] (Sample.start [Sample.addP1] tt)
              eq_refl eq_refl eq_refl eq_refl eq_refl eq_refl)
    as [_ Hdone].
  apply (Hdone (Some Sample.lists) tt (Some Sample.lists) tt "added");
    reflexivity.
Defined.

(** C1 as the specification words it fails: with [p1] in the wish list
    three times and two more requested, the update asks for five, but the
    success callback receives the two that were requested, not the five. *)
Lemma success_callback_receives_requested_quantity_not_sum :
  let r := processEventQueue Sample.steady Sample.idle Sample.isError
             Sample.WISHLIST Sample.customerId (Some Sample.lists)
             (Sample.start [Sample.addP1] tt) in
  customerProductListItems Sample.l1 = Some [Sample.i1]
  /\ find (fun i => pli_productId i =? "p1") [Sample.i1] = Some Sample.i1
  /\ pli_quantity Sample.i1 = 3%Z
  /\ ei_quantity (item Sample.addP1) = 2%Z
  /\ In (Call Sample.update5 (Resolved (Some Sample.lists))) (effects r)
  /\ In (OnSuccess "added" (Some 2%Z)) (effects r)
  /\ ~ In (OnSuccess "added" (Some (3 + 2)%Z)) (effects r).
Proof.
  cbv zeta. repeat split.
  - vm_compute. auto.
  - vm_compute. auto 6.
  - vm_compute. intros H.
    repeat (destruct H as [H | H]; [discriminate H | ]). exact H.
Qed.



Lemma add_existing_without_success_callback_reports_error_witness :
  effects (processEventQueue Sample.steady Sample.idle Sample.isError
             Sample.WISHLIST Sample.customerId (Some Sample.lists)
             (Sample.start [Sample.addP1_silent; Sample.removeI1] tt))
  = [Log (mkBody "p1" 1 5 false "product");
     Call Sample.update5 (Resolved (Some Sample.lists));
     Call Sample.fetch (Resolved (Some Sample.lists));
     OnError "failed";
     Call Sample.deleteI1 (Resolved (Some Sample.lists));
     OnSuccess "removed" None].
Proof.
  rewrite (add_existing_without_success_callback_reports_error Sample.steady
             Sample.idle Sample.isError Sample.WISHLIST Sample.customerId
             Sample.lists [Sample.l1; Sample.l2] Sample.l1 [Sample.i1]
             Sample.i1 Sample.addP1_silent [Sample.removeI1]
             (Sample.start [Sample.addP1_silent; Sample.removeI1] tt)
             (Some Sample.lists) tt (Some Sample.lists) tt
             eq_refl eq_refl eq_refl eq_refl eq_refl eq_refl eq_refl
             eq_refl eq_refl eq_refl eq_refl).
  reflexivity.
Defined.

Lemma failed_action_reports_error_and_drain_continues_witness :
  requests (effects (processEventQueue Sample.failing Sample.idle
                       Sample.isError Sample.WISHLIST Sample.customerId
                       (Some Sample.lists)
                       (Sample.start [Sample.removeI1; Sample.addP2] tt)))
  = [Sample.deleteI1; Sample.createP2]
  /\ filter (fun e => match e with OnError _ => true | _ => false end)
       (effects (processEventQueue Sample.failing Sample.idle
                   Sample.isError Sample.WISHLIST Sample.customerId
                   (Some Sample.lists)
                   (Sample.start [Sample.removeI1; Sample.addP2] tt)))
     = [OnError "failed"; OnError "failed"].
Proof.
  rewrite (failed_action_reports_error_and_drain_continues Sample.failing
             Sample.idle Sample.isError Sample.WISHLIST Sample.customerId
             (Some Sample.lists) Sample.removeI1 [Sample.addP2]
             (Sample.start [Sample.removeI1; Sample.addP2] tt)
             (ErrorOf (Some Sample.fault))
             (Sample.start [Sample.addP2] tt)
             [Call Sample.deleteI1 (Resolved (Some Sample.fault))]
             eq_refl
             (delete_throws Sample.failing Sample.idle Sample.isError
                Sample.WISHLIST Sample.customerId (Some Sample.lists)
                Sample.removeI1
                (dequeued [Sample.addP2]
                   (Sample.start [Sample.removeI1; Sample.addP2] tt))
                (ErrorOf (Some Sample.fault))
                (Sample.start [Sample.addP2] tt)
                [Call Sample.deleteI1 (Resolved (Some Sample.fault))]
                eq_refl eq_refl)).
  split; reflexivity.
Defined.

(** C2 fails on the code: an add and then a remove are enqueued while
    the lists are not loaded, and the effect does nothing.  Once the lists
    are there the effect starts the drain, which returns right after the
    add's success callback: the remove is still in the queue and no delete
    request was issued.  Only a later run of the effect, on the re-fetched
    snapshot, gets to the remove. *)
Theorem drain_returns_after_first_successful_add :
  let run_effect :=
    useEffect Sample.steady Sample.idle Sample.isError Sample.WISHLIST
              Sample.customerId in
  let st0 := mkState [] None false tt false in
  let st1 := final (addActionToEventQueue Sample.addP1 st0) in
  let st2 := final (addActionToEventQueue Sample.removeI1 st1) in
  let idle := run_effect None st2 in
  let r := run_effect (Some Sample.lists) st2 in
  let later := run_effect (context (final r)) (final r) in
  eventQueue st2 = [Sample.addP1; Sample.removeI1]
  /\ final idle = st2
  /\ effects idle = []
  /\ outcome r = Returned tt
  /\ requests (effects r) = [Sample.update5; Sample.fetch]
  /\ eventQueue (final r) = [Sample.removeI1]
  /\ requests (effects later) = [Sample.deleteI1]
  /\ eventQueue (final later) = [].
Proof. cbv zeta. repeat split. Qed.

(** ** The product-detail cache: properties *)

Section DetailFacts.
Import ProductDetails.

Variable getProducts : string -> ProductsResult.
Variable isError : option ProductsResponse -> bool.

Lemma get_set_same key value object :
  get key (set key value object) = Some value.
Proof.
  induction object as [|[k v] more IH]; cbn.
  - now rewrite String.eqb_refl.
  - destruct (k =? key) eqn:E; cbn; now rewrite E.
Qed.

Lemma get_set_other key key' value object :
  key <> key' -> get key' (set key value object) = get key' object.
Proof.
  intros Hne. induction object as [|[k v] more IH]; cbn.
  - apply String.eqb_neq in Hne. now rewrite Hne.
  - destruct (k =? key) eqn:E; cbn.
    + apply String.eqb_eq in E. subst k.
      apply String.eqb_neq in Hne. now rewrite Hne.
    + now rewrite IH.
Qed.

Lemma get_absent key object :
  ~ In key (map fst object) -> get key object = None.
Proof.
  induction object as [|[k v] more IH]; cbn; [reflexivity|].
  intros Hnot. destruct (String.eqb_spec k key) as [->|Hne].
  - exfalso. apply Hnot. now left.
  - apply IH. intros Hin. apply Hnot. now right.
Qed.

Lemma in_keys_set x key value object :
  In x (map fst (set key value object)) ->
  x = key \/ In x (map fst object).
Proof.
  induction object as [|[k v] more IH]; cbn.
  - intros [<- | []]. now left.
  - destruct (k =? key); cbn.
    + intros [<- | Hin]; auto.
    + intros [<- | Hin]; auto. destruct (IH Hin); auto.
Qed.

Lemma set_keeps_keys_apart key value object :
  NoDup (map fst object) -> NoDup (map fst (set key value object)).
Proof.
  induction object as [|[k v] more IH]; cbn; intros Hnd.
  - constructor; [intros [] | constructor].
  - inversion Hnd as [|? ? Hnot Hmore]; subst.
    destruct (String.eqb_spec k key) as [->|Hne]; cbn.
    + now constructor.
    + constructor; [|now apply IH].
      intros Hin. apply in_keys_set in Hin.
      destruct Hin as [-> | Hin]; [now apply Hne | now apply Hnot].
Qed.

Lemma itemDetail_keys_apart data : NoDup (map fst (itemDetail data)).
Proof.
  unfold itemDetail.
  assert (H : forall start,
             NoDup (map fst start) ->
             NoDup (map fst (fold_left
                               (fun result item =>
                                  set (product_id item) item result)
                               data start))).
  { induction data as [|p data IH]; intros start Hs; cbn; [assumption|].
    apply IH. now apply set_keeps_keys_apart. }
  apply H. constructor.
Qed.

Lemma find_over_app {A} (f : A -> bool) (l1 l2 : list A) :
  find f (l1 ++ l2)
  = match find f l1 with
    | Some x => Some x
    | None => find f l2
    end.
Proof.
  induction l1 as [|x l1 IH]; cbn; [reflexivity|].
  now destruct (f x).
Qed.

(** The detail kept under an id is the last product of the response
    that carries the id. *)
Lemma get_itemDetail key data :
  get key (itemDetail data)
  = find (fun p => product_id p =? key) (rev data).
Proof.
  unfold itemDetail.
  assert (H : forall start,
             get key (fold_left
                        (fun result item =>
                           set (product_id item) item result)
                        data start)
             = match find (fun p => product_id p =? key) (rev data) with
               | Some p => Some p
               | None => get key start
               end).
  { induction data as [|p data IH]; intros start; cbn; [reflexivity|].
    rewrite IH, find_over_app. cbn.
    destruct (find _ (rev data)); [reflexivity|].
    destruct (String.eqb_spec (product_id p) key) as [<-|Hne].
    - apply get_set_same.
    - now apply get_set_other. }
  rewrite H. now destruct (find _ (rev data)).
Qed.

Lemma get_spread key a b :
  NoDup (map fst b) ->
  get key (spread a b)
  = match get key b with
    | Some v => Some v
    | None => get key a
    end.
Proof.
  unfold spread. revert a.
  induction b as [|[k v] b IH]; intros a Hnd; cbn; [reflexivity|].
  inversion Hnd as [|? ? Hnot Hb]; subst.
  rewrite (IH _ Hb).
  destruct (String.eqb_spec k key) as [->|Hne].
  - rewrite (get_absent _ _ Hnot). apply get_set_same.
  - destruct (get key b); [reflexivity|]. now apply get_set_other.
Qed.

(** X15: [getProductsInList] asks the API only for a non-empty [ids],
    and then exactly once, for those ids; with [ids] undefined or empty it
    returns at once and hands no snapshot to the context. *)
Theorem getProductsInList_asks_only_for_ids cpl ids listId :
  let r := getProductsInList getProducts isError cpl ids listId in
  (ids = None \/ ids = Some "" -> r = mkRun Done [] None)
  /\ (forall s, ids = Some s -> s <> "" -> asked r = [s]).
Proof.
  cbv zeta. split.
  - intros [-> | ->]; reflexivity.
  - intros s -> Hne. destruct s as [|c s]; [congruence|].
    unfold getProductsInList.
    destruct (getProducts (String c s)) as [response|]; [|reflexivity].
    destruct (isError response); [reflexivity|].
    destruct response as [body|]; [|reflexivity].
    destruct (products body); [|reflexivity].
    destruct cpl as [snapshot|]; [|reflexivity].
    now destruct (lists snapshot).
Qed.

(** X16: [getProductsInList] hands a snapshot to the context only when
    it ends normally; when it throws (error-shaped or rejected answer, an
    answer without [data], a snapshot that is undefined or without [data])
    the context is not written.  The snapshot it does hand over has the
    fields of the closed-over one other than [data], and as many lists. *)
Theorem getProductsInList_writes_only_on_success cpl ids listId new :
  installed (getProductsInList getProducts isError cpl ids listId)
  = Some new ->
  ended (getProductsInList getProducts isError cpl ids listId) = Done
  /\ exists snapshot all all',
      cpl = Some snapshot
      /\ lists snapshot = Some all
      /\ lists new = Some all'
      /\ other new = other snapshot
      /\ length all' = length all.
Proof.
  unfold getProductsInList.
  destruct ids as [[|c s]|]; try discriminate.
  destruct (getProducts (String c s)) as [response|]; [|discriminate].
  destruct (isError response); [discriminate|].
  destruct response as [body|]; [|discriminate].
  destruct (products body) as [data|]; [|discriminate].
  destruct cpl as [snapshot|]; [|discriminate].
  destruct (lists snapshot) as [all|] eqn:Hl; [|discriminate].
  cbn. intros Hnew. inversion Hnew; subst new. split; [reflexivity|].
  exists snapshot, all. eexists. repeat split; try eassumption.
  cbn. apply length_map.
Qed.

(** X17: on success [getProductsInList] keeps every list in place with
    its id, type and items; lists other than [listId] are untouched; in the
    list [listId] the detail cached under an id is the last product of the
    response carrying that id, and where the response has none, whatever was
    cached before. *)
Theorem getProductsInList_merges_details
    snapshot all s body data listId :
  s <> "" ->
  getProducts s = Found (Some body) ->
  isError (Some body) = false ->
  products body = Some data ->
  lists snapshot = Some all ->
  let r := getProductsInList getProducts isError (Some snapshot) (Some s)
             listId in
  ended r = Done
  /\ exists all',
      installed r = Some (mkSnapshot (Some all') (other snapshot))
      /\ forall n list,
          nth_error all n = Some list ->
          exists list',
            nth_error all' n = Some list'
            /\ summary list' = summary list
            /\ (listId <> Some (pl_id (summary list)) -> list' = list)
            /\ (listId = Some (pl_id (summary list)) ->
                exists details,
                  _productItemsDetail list' = Some details
                  /\ forall key,
                      get key details
                      = match find (fun p => product_id p =? key)
                                   (rev data) with
                        | Some p => Some p
                        | None =>
                            match _productItemsDetail list with
                            | Some cached => get key cached
                            | None => None
                            end
                        end).
Proof.
  intros Hne Hget Herr Hdata Hlists. cbv zeta.
  unfold getProductsInList. destruct s as [|c s]; [congruence|].
  rewrite Hget, Herr, Hdata, Hlists. cbn. split; [reflexivity|].
  eexists. split; [reflexivity|].
  intros n list Hn. exists (add_details listId (itemDetail data) list).
  rewrite nth_error_map, Hn. split; [reflexivity|].
  unfold add_details.
  destruct (id_is (pl_id (summary list)) listId) eqn:Hid.
  - split; [reflexivity|]. split.
    + intros Hother. exfalso. apply Hother. now apply id_is_true.
    + intros _. eexists. split; [reflexivity|]. intros key.
      rewrite (get_spread _ _ _ (itemDetail_keys_apart data)).
      rewrite get_itemDetail.
      destruct (find _ (rev data)); [reflexivity|].
      now destruct (_productItemsDetail list).
  - split; [reflexivity|]. split; [reflexivity|].
    intros Hthis. apply id_is_true in Hthis. congruence.
Qed.

End DetailFacts.


(** ** The further properties on the sample data *)

Lemma queued_remove_deletes_and_drain_continues_witness :
  effects (processEventQueue Sample.steady Sample.idle Sample.isError
             Sample.WISHLIST Sample.customerId (Some Sample.lists)
             (Sample.start [Sample.removeI1; Sample.addP2] tt))
  = [Call Sample.deleteI1 (Resolved (Some Sample.lists));
     OnSuccess "removed" None;
     Log (mkBody "p2" 1 2 false "product");
     Call Sample.createP2 (Resolved (Some Sample.lists));
     Call Sample.fetch (Resolved (Some Sample.lists));
     OnSuccess "added" (Some 2%Z)].
Proof.
  rewrite (queued_remove_deletes_and_drain_continues Sample.steady
             Sample.idle Sample.isError Sample.WISHLIST Sample.customerId
             Sample.lists [Sample.l1; Sample.l2]
             [mkList "l1" Sample.WISHLIST (Some []) []; Sample.l2]
             Sample.removeI1 [Sample.addP2]
             (Sample.start [Sample.removeI1; Sample.addP2] tt)
             (Some Sample.lists) tt
             eq_refl eq_refl eq_refl eq_refl eq_refl eq_refl).
  reflexivity.
Defined.

Lemma queued_action_of_unknown_kind_is_dropped_witness :
  effects (processEventQueue Sample.steady Sample.idle Sample.isError
             Sample.WISHLIST Sample.customerId (Some Sample.lists)
             (Sample.start
                [mkEvent "update" (mkEventItem "p1" 1) None (Some "added")
                         (Some "failed");
                 Sample.removeI1] tt))
  = [Call Sample.deleteI1 (Resolved (Some Sample.lists));
     OnSuccess "removed" None].
Proof.
  rewrite (queued_action_of_unknown_kind_is_dropped Sample.steady
             Sample.idle Sample.isError Sample.WISHLIST Sample.customerId
             (Some Sample.lists)
             (mkEvent "update" (mkEventItem "p1" 1) None (Some "added")
                      (Some "failed"))
             [Sample.removeI1]
             (Sample.start
                [mkEvent "update" (mkEventItem "p1" 1) None (Some "added")
                         (Some "failed");
                 Sample.removeI1] tt)
             eq_refl).
  - reflexivity.
  - discriminate.
  - discriminate.
Defined.

Lemma queued_add_without_wishlist_reports_error_witness :
  effects (processEventQueue Sample.steady Sample.idle Sample.isError
             Sample.WISHLIST Sample.customerId
             (Some (mkObj (Some [Sample.l2]) []))
             (mkState [Sample.addP1] (Some (mkObj (Some [Sample.l2]) []))
                      false tt false))
  = [OnError "failed"].
Proof.
  rewrite (queued_add_without_wishlist_reports_error Sample.steady
             Sample.idle Sample.isError Sample.WISHLIST Sample.customerId
             (Some (mkObj (Some [Sample.l2]) []))
             Sample.addP1 []
             (mkState [Sample.addP1] (Some (mkObj (Some [Sample.l2]) []))
                      false tt false)
             eq_refl eq_refl).
  - reflexivity.
  - intros o lists Ho Hd. inversion Ho; subst o. inversion Hd; subst lists.
    reflexivity.
Defined.

Lemma queued_add_on_wishlist_without_items_reports_error_witness :
  effects (processEventQueue Sample.steady Sample.idle Sample.isError
             Sample.WISHLIST Sample.customerId (Some Sample.bare_lists)
             (mkState [Sample.addP2; Sample.removeI1]
                      (Some Sample.bare_lists) false tt false))
  = [OnError "failed";
     Call Sample.deleteI1 (Resolved (Some Sample.lists));
     OnError "failed"].
Proof.
  rewrite (queued_add_on_wishlist_without_items_reports_error Sample.steady
             Sample.idle Sample.isError Sample.WISHLIST Sample.customerId
             Sample.bare_lists [Sample.bare] Sample.bare Sample.addP2
             [Sample.removeI1]
             (mkState [Sample.addP2; Sample.removeI1]
                      (Some Sample.bare_lists) false tt false)
             eq_refl eq_refl eq_refl eq_refl eq_refl).
  reflexivity.
Defined.

Lemma queue_of_removes_is_drained_in_order_witness :
  (eventQueue
     (final (processEventQueue Sample.steady Sample.eager Sample.isError
               Sample.WISHLIST Sample.customerId (Some Sample.lists)
               (Sample.start
                  [Sample.removeI1; Sample.removeI2; Sample.removeI3] tt)))
   = []
   /\ requests
        (effects (processEventQueue Sample.steady Sample.eager
                    Sample.isError Sample.WISHLIST Sample.customerId
                    (Some Sample.lists)
                    (Sample.start
                       [Sample.removeI1; Sample.removeI2; Sample.removeI3]
                       tt)))
      = [Sample.deleteI1; Sample.deleteI2])
  /\ requests
       (effects (processEventQueue Sample.steady Sample.idle Sample.isError
                   Sample.WISHLIST Sample.customerId (Some Sample.lists)
                   (Sample.start
                      [Sample.removeI1; Sample.removeI2; Sample.removeI3]
                      tt)))
     = [Sample.deleteI1; Sample.deleteI2; Sample.deleteI3].
Proof.
  split.
  - destruct (queue_of_removes_is_drained_in_order Sample.steady
                Sample.eager Sample.isError Sample.WISHLIST
                Sample.customerId (Some Sample.lists)
                (Sample.start
                   [Sample.removeI1; Sample.removeI2; Sample.removeI3] tt))
      as (Hempty & _ & _).
    + intros event [<- | [<- | [<- | []]]]; reflexivity.
    + split; [exact Hempty | reflexivity].
  - destruct (queue_of_removes_is_drained_in_order Sample.steady
                Sample.idle Sample.isError Sample.WISHLIST
                Sample.customerId (Some Sample.lists)
                (Sample.start
                   [Sample.removeI1; Sample.removeI2; Sample.removeI3] tt))
      as (_ & _ & Hall).
    + intros event [<- | [<- | [<- | []]]]; reflexivity.
    + apply Hall. reflexivity.
Defined.

Lemma second_remove_overwrites_first_local_edit_witness :
  context (final (processEventQueue Sample.steady Sample.eager
                    Sample.isError Sample.WISHLIST Sample.customerId
                    (Some Sample.lists)
                    (Sample.start [Sample.removeI1; Sample.removeI2] tt)))
  = Some Sample.lists.
Proof.
  apply (second_remove_overwrites_first_local_edit Sample.steady
           Sample.eager Sample.isError Sample.WISHLIST Sample.customerId
           Sample.lists [Sample.l1; Sample.l2] [Sample.l1; Sample.l2]
           Sample.removeI1 Sample.removeI2
           (Sample.start [Sample.removeI1; Sample.removeI2] tt)
           (Some Sample.lists) tt (Some Sample.lists) tt
           eq_refl eq_refl eq_refl eq_refl eq_refl eq_refl eq_refl eq_refl
           eq_refl eq_refl).
Defined.

Lemma failed_store_method_keeps_snapshot_witness :
  context (final (getCustomerProductLists Sample.failing Sample.idle
                    Sample.isError Sample.customerId (Sample.start [] tt)))
  = Some Sample.lists.
Proof.
  destruct (failed_store_method_keeps_snapshot Sample.failing Sample.idle
              Sample.isError Sample.customerId "wish_list"
              (mkBody "p1" 1 2 false "product") "l1" "i1" None
              (mkEventItem "i1" 0) None)
    as (_ & _ & _ & H & _).
  apply (H (Sample.start [] tt) (ErrorOf (Some Sample.fault))).
  reflexivity.
Defined.

Lemma returning_store_method_clears_loader_witness :
  isLoading (final (getCustomerProductLists Sample.steady Sample.idle
                      Sample.isError Sample.customerId
                      (mkState [] None true tt false)))
  = false.
Proof.
  destruct (returning_store_method_clears_loader Sample.steady Sample.idle
              Sample.isError Sample.customerId "wish_list"
              (mkBody "p1" 1 2 false "product") "l1" "i1")
    as (_ & _ & _ & H & _).
  apply (H (mkState [] None true tt false) (Some Sample.lists)).
  reflexivity.
Defined.

Lemma rejected_call_leaves_loader_on_witness :
  isLoading (final (getCustomerProductLists
                      (fun (w : unit) (_ : Request) => (Rejected, w))
                      Sample.idle Sample.isError Sample.customerId
                      (Sample.start [] tt)))
  = true.
Proof.
  destruct (rejected_call_leaves_loader_on
              (fun (w : unit) (_ : Request) => (Rejected, w))
              Sample.idle Sample.isError Sample.customerId
              (Sample.start [] tt) tt
              "wish_list" (mkBody "p1" 1 2 false "product") "l1" "i1")
    as (H & _).
  destruct (H eq_refl) as [[_ Hloader] _]. exact Hloader.
Defined.

Lemma error_response_and_the_loader_witness :
  isLoading (final (createCustomerProductList Sample.failing Sample.idle
                      Sample.isError Sample.customerId "wish_list"
                      (Sample.start [] tt)))
  = true.
Proof.
  destruct (error_response_and_the_loader Sample.failing Sample.idle
              Sample.isError Sample.customerId (Sample.start [] tt)
              (Some Sample.fault) tt
              "wish_list" (mkBody "p1" 1 2 false "product") "l1" "i1"
              eq_refl)
    as (_ & _ & _ & H).
  destruct (H eq_refl) as [_ Hloader]. exact Hloader.
Defined.

Lemma successful_mutation_refetches_and_returns_own_response_witness :
  requests (effects (createCustomerProductListItem Sample.steady
                       Sample.idle Sample.isError Sample.customerId
                       (mkBody "p2" 1 2 false "product") "l1"
                       (mkState [] None false tt false)))
  = [Sample.createP2; Sample.fetch]
  /\ context (final (createCustomerProductListItem Sample.steady
                       Sample.idle Sample.isError Sample.customerId
                       (mkBody "p2" 1 2 false "product") "l1"
                       (mkState [] None false tt false)))
     = Some Sample.lists.
Proof.
  destruct (successful_mutation_refetches_and_returns_own_response
              Sample.steady Sample.idle Sample.isError Sample.customerId
              (mkState [] None false tt false) (Some Sample.lists) tt
              (Some Sample.lists) tt "wish_list"
              (mkBody "p2" 1 2 false "product") "l1" "i1"
              eq_refl eq_refl eq_refl)
    as (_ & H & _).
  destruct (H eq_refl) as (_ & Hc & _ & Hr). split; assumption.
Defined.

Lemma effect_on_cleared_snapshot_throws_witness :
  outcome (useEffect Sample.steady Sample.idle Sample.isError
             Sample.WISHLIST Sample.customerId (Some (mkObj None []))
             (mkState [Sample.removeI1] (Some (mkObj None [])) false tt
                      true))
  = Thrown TypeError.
Proof.
  destruct (effect_on_cleared_snapshot_throws Sample.steady Sample.idle
              Sample.isError Sample.WISHLIST Sample.customerId
              (Sample.start [Sample.removeI1] tt))
    as (_ & H & _).
  - discriminate.
  - exact H.
Defined.

Lemma getProductsInList_asks_only_for_ids_witness :
  ProductDetails.asked
    (ProductDetails.getProductsInList ProductDetails.answer
       ProductDetails.never_error (Some ProductDetails.cached)
       (Some "p1,p2") (Some "l1"))
  = ["p1,p2"].
Proof.
  destruct (getProductsInList_asks_only_for_ids ProductDetails.answer
              ProductDetails.never_error (Some ProductDetails.cached)
              (Some "p1,p2") (Some "l1"))
    as [_ H].
  apply H; [reflexivity | discriminate].
Defined.

Lemma getProductsInList_writes_only_on_success_witness :
  ProductDetails.ended
    (ProductDetails.getProductsInList ProductDetails.answer
       ProductDetails.never_error (Some ProductDetails.cached)
       (Some "p1,p2") (Some "l1"))
  = ProductDetails.Done.
Proof.
  destruct (getProductsInList_writes_only_on_success ProductDetails.answer
              ProductDetails.never_error (Some ProductDetails.cached)
              (Some "p1,p2") (Some "l1")
              (ProductDetails.mkSnapshot
                 (Some (map (ProductDetails.add_details (Some "l1")
                               (ProductDetails.itemDetail
                                  [ProductDetails.tie;
                                   ProductDetails.shirt']))
                            [ProductDetails.mkDetailed
                               (mkList "l1" "wish_list" None [])
                               (Some [("p1", ProductDetails.shirt)]);
                             ProductDetails.mkDetailed
                               (mkList "l2" "shopping_list" None []) None]))
                 [("total", "2")])
              eq_refl)
    as [H _].
  exact H.
Defined.

Lemma getProductsInList_merges_details_witness :
  exists all' merged details,
    ProductDetails.installed
      (ProductDetails.getProductsInList ProductDetails.answer
         ProductDetails.never_error (Some ProductDetails.cached)
         (Some "p1,p2") (Some "l1"))
    = Some (ProductDetails.mkSnapshot (Some all') [("total", "2")])
    /\ nth_error all' 0 = Some merged
    /\ ProductDetails._productItemsDetail merged = Some details
    /\ ProductDetails.get "p1" details = Some ProductDetails.shirt'
    /\ ProductDetails.get "p2" details = Some ProductDetails.tie
    /\ ProductDetails.get "p3" details = None
    /\ nth_error all' 1
       = Some (ProductDetails.mkDetailed
                 (mkList "l2" "shopping_list" None []) None).
Proof.
  destruct (getProductsInList_merges_details ProductDetails.answer
              ProductDetails.never_error ProductDetails.cached
              [ProductDetails.mkDetailed (mkList "l1" "wish_list" None [])
                 (Some [("p1", ProductDetails.shirt)]);
               ProductDetails.mkDetailed
                 (mkList "l2" "shopping_list" None []) None]
              "p1,p2"
              (ProductDetails.mkProducts
                 (Some [ProductDetails.tie; ProductDetails.shirt']) [])
              [ProductDetails.tie; ProductDetails.shirt'] (Some "l1"))
    as [_ [all' [Hinstalled Hlists]]]; try reflexivity; try discriminate.
  destruct (Hlists 0%nat _ eq_refl) as (merged & Hn & _ & _ & Hmerge).
  destruct (Hmerge eq_refl) as (details & Hd & Hget).
  destruct (Hlists 1%nat _ eq_refl) as (other & Hn1 & _ & Hsame & _).
  rewrite (Hsame ltac:(discriminate)) in Hn1.
  exists all', merged, details.
  split; [exact Hinstalled|]. split; [exact Hn|]. split; [exact Hd|].
  rewrite !Hget. repeat split. exact Hn1.
Defined.
